(** * Resource manager of the dashboard: a shallow embedding

    Source: [dashboard/src/resourceManager/ResourceManager.js], classes
    [Resource] and [ResourceManager].

    JavaScript objects are mutated in place; here every method is a
    computation in a small state-and-exception monad whose state holds
    the object the method runs on ([this]) and the trace of the effects
    that leave the object (calls of user functions, [console.error], calls
    of the remote-call collaborator).

    Of [ResourceManager] the method [updateResource] is embedded; its
    constructor, [init] and [destroy] only wire the watchers of the host
    framework.  The host handle [_vm] is opaque to the module (it is the
    receiver handed to the handlers) and has no counterpart here. *)

From Stdlib Require Import ZArith List String Bool Lia.
From stdpp Require Import base option list gmap strings.

Local Open Scope Z_scope.
Local Open Scope string_scope.
Local Open Scope list_scope.

(** ** JavaScript values *)

#[local] Set Warnings "-register-all".

(** Numbers are integers (no NaN, no fractions).  A function value is the
    identity of a function object; what the function does when called is
    given by the [behaviour] parameter of the sections below.  Arrays and
    plain objects carry no reference identity: two structurally equal
    values stand for the same reference. *)
Inductive value : Type :=
| VUndefined
| VNull
| VBool (b : bool)
| VNum (n : Z)
| VStr (s : string)
| VArr (items : list value)
| VObj (fields : list (string * value))
| VFun (f : nat).

Definition value_eq_dec : forall a b : value, {a = b} + {a <> b}.
Proof.
  fix IH 1.
  assert (IHl : forall xs ys : list value, {xs = ys} + {xs <> ys}).
  { fix IHl 1. intros [|x xs] [|y ys]; try (right; discriminate); [left; reflexivity|].
    destruct (IH x y) as [->|Hn]; [|right; congruence].
    destruct (IHl xs ys) as [->|Hn]; [left; reflexivity|right; congruence]. }
  assert (IHf : forall xs ys : list (string * value), {xs = ys} + {xs <> ys}).
  { fix IHf 1. intros [|[k x] xs] [|[k' y] ys]; try (right; discriminate); [left; reflexivity|].
    destruct (String.string_dec k k') as [->|Hn]; [|right; congruence].
    destruct (IH x y) as [->|Hn]; [|right; congruence].
    destruct (IHf xs ys) as [->|Hn]; [left; reflexivity|right; congruence]. }
  intros [] []; try (right; discriminate); try (left; reflexivity).
  - destruct (Bool.bool_dec b b0) as [->|]; [left; reflexivity|right; congruence].
  - destruct (Z.eq_dec n n0) as [->|]; [left; reflexivity|right; congruence].
  - destruct (String.string_dec s s0) as [->|]; [left; reflexivity|right; congruence].
  - destruct (IHl items items0) as [->|]; [left; reflexivity|right; congruence].
  - destruct (IHf fields fields0) as [->|]; [left; reflexivity|right; congruence].
  - destruct (Nat.eq_dec f f0) as [->|]; [left; reflexivity|right; congruence].
Defined.

#[export] Instance value_eq_decision : EqDecision value := value_eq_dec.

(** [a === b] *)
Definition strict_eq (a b : value) : bool := bool_decide (a = b).

(** ToBoolean: [undefined], [null], [false], [0] and the empty string are
    falsy, every other value (arrays and objects included) is truthy. *)
Definition truthy (v : value) : bool :=
  match v with
  | VUndefined | VNull => false
  | VBool b => b
  | VNum n => negb (Z.eqb n 0)
  | VStr s => negb (String.eqb s "")
  | VArr _ | VObj _ | VFun _ => true
  end.

(** [a || b] *)
Definition js_or (a b : value) : value := if truthy a then a else b.

(** [Array.isArray(v)] *)
Definition isArray (v : value) : bool :=
  match v with VArr _ => true | _ => false end.

(** The items one argument contributes to [Array.prototype.concat]: an
    array is spread, any other value is appended as it is. *)
Definition concat_arg (v : value) : list value :=
  match v with VArr items => items | _ => [v] end.

(** [arr.indexOf(x)]: first index holding a value strictly equal to [x],
    [-1] when there is none. *)
Fixpoint indexOf (arr : list value) (x : value) : Z :=
  match arr with
  | [] => -1
  | y :: arr' =>
      if strict_eq y x then 0
      else let i := indexOf arr' x in if Z.ltb i 0 then -1 else i + 1
  end.

(** [arr.splice(start, 1)]: a negative [start] counts from the end, and
    one item is removed at the resulting position when there is one. *)
Definition splice1 (arr : list value) (start : Z) : list value :=
  let len := Z.of_nat (length arr) in
  let from := if Z.ltb start 0 then Z.max (len + start) 0 else Z.min start len in
  delete (Z.to_nat from) arr.

(** An object literal: its own properties in insertion order. *)
Definition object : Type := list (string * value).

(** [o[k]] *)
Fixpoint get (o : object) (k : string) : value :=
  match o with
  | [] => VUndefined
  | (k', v) :: o' => if String.eqb k' k then v else get o' k
  end.

(** [Object.keys(o)] *)
Definition keys (o : object) : list string := map fst o.

(** ** Exceptions, effects and the monad *)

Inductive exn : Type :=
| JsError (message : string)                    (* [new Error(message)] *)
| TypeError                                     (* raised by the runtime *)
| Thrown (v : value)                            (* thrown by a user function *)
| CallRejected (messages : option (list string)). (* rejection of [call] *)

Inductive event : Type :=
| EvInvoke (f : nat) (args : list value)        (* user function [f] called *)
| EvInvokeAsMethod (f : nat) (receiver : value) (args : list value)
    (* [receiver.call(vm, ...args)] where [receiver.call] is the user
       function [f]: [f] runs with [receiver] as [this] and with the host
       handle followed by [args] as its arguments *)
| EvConsoleError (e : exn)                      (* [console.error(e)] *)
| EvCall (method params : value)                (* [call(method, params)] *)
| EvCancel.                                     (* [cancel()] was entered *)

Inductive result (A : Type) : Type :=
| Ok (a : A)
| Raise (e : exn).

Arguments Ok {A} a.

Arguments Raise {A} e.

Definition M (S A : Type) : Type := S -> result A * S.

Definition ret {S A} (a : A) : M S A := fun s => (Ok a, s).

Definition bind {S A B} (m : M S A) (k : A -> M S B) : M S B :=
  fun s => match m s with
           | (Ok a, s') => k a s'
           | (Raise e, s') => (Raise e, s')
           end.

Definition throw {S A} (e : exn) : M S A := fun s => (Raise e, s).

(** [try { body } catch (e) { handler(e) }]: the state reached when the
    exception was raised is the one the handler starts from. *)
Definition try_catch {S A} (body : M S A) (handler : exn -> M S A) : M S A :=
  fun s => match body s with
           | (Ok a, s') => (Ok a, s')
           | (Raise e, s') => handler e s'
           end.

Definition gets {S A} (f : S -> A) : M S A := fun s => (Ok (f s), s).

Definition modify {S} (f : S -> S) : M S unit := fun s => (Ok tt, f s).

Declare Scope js_scope.

Delimit Scope js_scope with js.

Notation "x <- m ;; k" := (bind m (fun x => k))
  (at level 100, m at next level, right associativity) : js_scope.

Notation "m ;; k" := (bind m (fun _ => k))
  (at level 100, right associativity) : js_scope.

Local Open Scope js_scope.

(** [arr.forEach(f)] over an array nobody changes during the loop. *)
Fixpoint forEach {S A} (f : A -> M S unit) (arr : list A) : M S unit :=
  match arr with
  | [] => ret tt
  | x :: arr' => f x ;; forEach f arr'
  end.

(** ** The Resource object *)

(** [options.condition || (() => true)] *)
Inductive condition_fn : Type :=
| CondAlways                 (* the built-in [() => true] *)
| CondValue (v : value).     (* the truthy value given in the config *)

Record Resource : Type := mkResource {
  method : value;
  params : value;
  auto : value;
  keepData : value;
  condition : condition_fn;
  paged : value;
  listeners : gmap string (list value);
  onceListeners : gmap string (list value);
  data : value;
  error : value;
  loading : bool;
  lastLoaded : option Z
}.

Definition set_method v r := mkResource v (params r) (auto r) (keepData r) (condition r) (paged r) (listeners r) (onceListeners r) (data r) (error r) (loading r) (lastLoaded r).

Definition set_params v r := mkResource (method r) v (auto r) (keepData r) (condition r) (paged r) (listeners r) (onceListeners r) (data r) (error r) (loading r) (lastLoaded r).

Definition set_auto v r := mkResource (method r) (params r) v (keepData r) (condition r) (paged r) (listeners r) (onceListeners r) (data r) (error r) (loading r) (lastLoaded r).

Definition set_keepData v r := mkResource (method r) (params r) (auto r) v (condition r) (paged r) (listeners r) (onceListeners r) (data r) (error r) (loading r) (lastLoaded r).

Definition set_condition v r := mkResource (method r) (params r) (auto r) (keepData r) v (paged r) (listeners r) (onceListeners r) (data r) (error r) (loading r) (lastLoaded r).

Definition set_paged v r := mkResource (method r) (params r) (auto r) (keepData r) (condition r) v (listeners r) (onceListeners r) (data r) (error r) (loading r) (lastLoaded r).

Definition set_listeners v r := mkResource (method r) (params r) (auto r) (keepData r) (condition r) (paged r) v (onceListeners r) (data r) (error r) (loading r) (lastLoaded r).

Definition set_onceListeners v r := mkResource (method r) (params r) (auto r) (keepData r) (condition r) (paged r) (listeners r) v (data r) (error r) (loading r) (lastLoaded r).

Definition set_data v r := mkResource (method r) (params r) (auto r) (keepData r) (condition r) (paged r) (listeners r) (onceListeners r) v (error r) (loading r) (lastLoaded r).

Definition set_error v r := mkResource (method r) (params r) (auto r) (keepData r) (condition r) (paged r) (listeners r) (onceListeners r) (data r) v (loading r) (lastLoaded r).

Definition set_loading v r := mkResource (method r) (params r) (auto r) (keepData r) (condition r) (paged r) (listeners r) (onceListeners r) (data r) (error r) v (lastLoaded r).

Definition set_lastLoaded v r := mkResource (method r) (params r) (auto r) (keepData r) (condition r) (paged r) (listeners r) (onceListeners r) (data r) (error r) (loading r) v.

(** The state a method of [Resource] runs in. *)
Record state : Type := mkState {
  this : Resource;
  trace : list event          (* oldest event first *)
}.

Definition assign (f : Resource -> Resource) : M state unit :=
  modify (fun s => mkState (f (this s)) (trace s)).

Definition log (e : event) : M state unit :=
  modify (fun s => mkState (this s) (trace s ++ [e])).

(** The result of calling a user function. *)
Inductive outcome : Type :=
| Returns (v : value)
| Throws (v : value).

(** Modelled from the spec: the remote-call collaborator [call], which
    the module imports from [../controllers/call] and which is not among
    the sources.  [call(method, params)] returns a promise that resolves
    with the decoded data or rejects with an error object exposing
    [messages], a list of strings: [Rejected (Some messages)].  A
    rejection without such a list, on which [error.messages.join] cannot
    be evaluated, is [Rejected None]. *)
Inductive response : Type :=
| Resolved (data : value)
| Rejected (messages : option (list string)).

(** [messages.join(sep)] on a list of strings. *)
Fixpoint join (sep : string) (messages : list string) : string :=
  match messages with
  | [] => ""
  | [m] => m
  | m :: rest => String.append m (String.append sep (join sep rest))
  end.

(** The line feed of the literal ['\n']. *)
Definition LF : string := String (Ascii.ascii_of_nat 10) EmptyString.

(** A resource definition once a dynamic (function) definition has been
    evaluated: a bare method string or a config object. *)
Inductive definition : Type :=
| DefString (m : string)
| DefConfig (o : object).

(** [if (typeof options == 'string') options = { method: options, auto: true }] *)
Definition normalize (options : definition) : object :=
  match options with
  | DefString m => [("method", VStr m); ("auto", VBool true)]
  | DefConfig o => o
  end.

(** Truthiness of a definition used as a condition. *)
Definition truthy_def (d : definition) : bool :=
  match d with
  | DefString m => truthy (VStr m)
  | DefConfig _ => true
  end.

Definition method_required : string :=
  "[Resource Manager]: method is required to define a resource".

Definition method_cannot_change : string :=
  "[Resource Manager]: method cannot change for the same resource".

(** The two configuration errors of the module. *)
Definition ConfigurationError (e : exn) : Prop :=
  e = JsError method_required \/ e = JsError method_cannot_change.

Section Methods.

(** What the user functions do: the function object [f], called after
    the events [history] with arguments [args], returns or throws.
    A function that is called as the [call] method of an object is given
    that object followed by the arguments that come after the host
    handle.  User functions are assumed not to reach back into the
    resource whose method is calling them. *)
Variable behaviour : nat -> list event -> list value -> outcome.

(** [f(...args)], and [f.call(vm, ...args)] on a function [f]; a value
    that is not a function cannot be called. *)
Definition call_function (f : value) (args : list value) : M state value :=
  match f with
  | VFun id =>
      history <- gets trace ;;
      log (EvInvoke id args) ;;
      match behaviour id history args with
      | Returns v => ret v
      | Throws e => throw (Thrown e)
      end
  | _ => throw TypeError
  end.

(** [handler.call(vm, ...args)].  On a function this is
    [Function.prototype.call].  On an object it is a call of the
    object's own [call] property as a method, which fails unless that
    property is a function.  No other value has a [call] property. *)
Definition call_handler (handler : value) (args : list value) : M state value :=
  match handler with
  | VFun _ => call_function handler args
  | VObj fields =>
      match get fields "call" with
      | VFun g =>
          history <- gets trace ;;
          log (EvInvokeAsMethod g handler args) ;;
          match behaviour g history (handler :: args) with
          | Returns v => ret v
          | Throws e => throw (Thrown e)
          end
      | _ => throw TypeError
      end
  | _ => throw TypeError
  end.

(** [function runHandler(handler)] inside [emit]. *)
Definition runHandler (args : list value) (handler : value) : M state unit :=
  try_catch
    (call_handler handler args ;; ret tt)
    (fun error => log (EvConsoleError error)).

(** [on(event, handler)] *)
Definition on (event : string) (handler : value) : M state unit :=
  assign (fun r =>
    set_listeners
      (<[event := default [] (listeners r !! event) ++ concat_arg handler]>
         (listeners r)) r).

(** [once(event, handler)] *)
Definition once (event : string) (handler : value) : M state unit :=
  assign (fun r =>
    set_onceListeners
      (<[event := default [] (onceListeners r !! event) ++ concat_arg handler]>
         (onceListeners r)) r).

(** The second [forEach] of [emit].  The array it walks is the one
    stored under [key], and the callback splices that same array, so
    the loop follows [Array.prototype.forEach] on a changing array: the
    number of rounds is the length read before the first round, and
    round [k] is skipped when index [k] is no longer present. *)
Fixpoint forEach_once (key : string) (args : list value) (rounds k : nat)
  : M state unit :=
  match rounds with
  | O => ret tt
  | S rounds' =>
      arr <- gets (fun s => default [] (onceListeners (this s) !! key)) ;;
      match arr !! k with
      | None => forEach_once key args rounds' (S k)
      | Some handler =>
          runHandler args handler ;;
          (* remove listener after calling handler *)
          assign (fun r =>
            let arr := default [] (onceListeners r !! key) in
            set_onceListeners
              (<[key := splice1 arr (indexOf arr handler)]> (onceListeners r)) r) ;;
          forEach_once key args rounds' (S k)
      end
  end.

(** [emit(event, ...args)] *)
Definition emit (event : string) (args : list value) : M state unit :=
  let key := String.append "on" event in
  persistent <- gets (fun s => default [] (listeners (this s) !! key)) ;;
  forEach (runHandler args) persistent ;;
  oneShot <- gets (fun s => onceListeners (this s) !! key) ;;
  match oneShot with
  | None => ret tt
  | Some arr => forEach_once key args (length arr) 0
  end.

(** [update(options, initialValue)] *)
Definition update (options : definition) (initialValue : value) : M state unit :=
  let options := normalize options in
  r <- gets this ;;
  if truthy (method r) && truthy (get options "method")
     && negb (strict_eq (get options "method") (method r))
  then throw (JsError method_cannot_change)
  else
    (* params *)
    assign (set_params (js_or (get options "params") VNull)) ;;
    assign (set_auto (js_or (get options "auto") (VBool false))) ;;
    assign (set_keepData (js_or (get options "keepData") (VBool false))) ;;
    assign (set_condition
              (if truthy (get options "condition")
               then CondValue (get options "condition") else CondAlways)) ;;
    assign (set_paged (js_or (get options "paged") (VBool false))) ;;
    (* events *)
    assign (set_listeners ∅) ;;
    assign (set_onceListeners ∅) ;;
    let listenerKeys := List.filter (String.prefix "on") (keys options) in
    forEach (fun key => on key (get options key)) listenerKeys ;;
    (* response *)
    assign (set_data (js_or (js_or initialValue (get options "default")) VNull)) ;;
    assign (set_error VNull) ;;
    assign (set_loading false) ;;
    assign (set_lastLoaded None).

(** The object [new] hands to the constructor: no field is set yet. *)
Definition blank : Resource :=
  mkResource VUndefined VUndefined VUndefined VUndefined CondAlways VUndefined
             ∅ ∅ VUndefined VUndefined false None.

(** [constructor(vm, options = {}, initialValue)], run on [blank]. *)
Definition constructor (options : definition) (initialValue : value) : M state unit :=
  let options := normalize options in
  if negb (truthy (get options "method"))
  then throw (JsError method_required)
  else
    assign (set_method (get options "method")) ;;
    update (DefConfig options) initialValue.

(** [this.condition()] *)
Definition call_condition : M state value :=
  c <- gets (fun s => condition (this s)) ;;
  match c with
  | CondAlways => ret (VBool true)
  | CondValue f => call_function f []
  end.

(** [error.messages.join('\n')] in the [catch] of [fetch]: only a
    rejection of [call] that carries its messages has them; on any
    other exception the expression raises a [TypeError]. *)
Definition messages_join (error : exn) : M state string :=
  match error with
  | CallRejected (Some messages) => ret (join LF messages)
  | _ => throw TypeError
  end.

(** [await call(...)] once the promise has settled. *)
Definition await (settled : response) : M state value :=
  match settled with
  | Resolved data => ret data
  | Rejected messages => throw (CallRejected messages)
  end.

(** [fetch()] up to the point where it suspends on [await]: [false]
    when the condition made it return at once, [true] when the call
    has been issued. *)
Definition fetch_begin : M state bool :=
  c <- call_condition ;;
  if negb (truthy c) then ret false
  else
    assign (set_loading true) ;;
    r <- gets this ;;
    log (EvCall (method r) (params r)) ;;
    ret true.

(** [fetch()] from the point where the [await] is resumed with the
    settled promise; [now] is the value of [new Date()]. *)
Definition fetch_resume (settled : response) (now : Z) : M state unit :=
  try_catch
    (fetched <- await settled ;;
     r <- gets this ;;
     (if isArray fetched && truthy (paged r)
      then assign (set_data
             (VArr (concat_arg (js_or (data r) (VArr [])) ++ concat_arg fetched)))
      else assign (set_data fetched)) ;;
     r <- gets this ;;
     emit "Success" [data r])
    (fun error =>
       message <- messages_join error ;;
       assign (set_error (VStr message)) ;;
       emit "Error" [VStr message]) ;;
  assign (set_lastLoaded (Some now)) ;;
  assign (set_loading false).

(** [fetch()] when nothing else runs between the call and its answer. *)
Definition fetch (settled : response) (now : Z) : M state unit :=
  started <- fetch_begin ;;
  if started then fetch_resume settled now else ret tt.

(** [reload()] and [submit()] *)
Definition reload := fetch.

Definition submit := fetch.

(** [cancel() {}]: the body is empty; the trace records that the
    method was entered. *)
Definition cancel : M state unit := log EvCancel.

End Methods.

(** ** The ResourceManager object *)

(** [this.resources] and the trace of effects.  The resources are owned
    by the manager and mutated in place under their key. *)
Record manager : Type := mkManager {
  resources : gmap string Resource;
  world : list event
}.

(** Run a method of the resource stored under [key]; what it does to the
    resource is seen by everyone who reads [resources[key]] afterwards.
    Where [resources[key]] is not a resource the method does not exist
    and the call is a [TypeError]. *)
Definition on_resource {A} (key : string) (m : M state A) : M manager A :=
  fun g =>
    match resources g !! key with
    | None => (Raise TypeError, g)
    | Some r =>
        let '(res, s) := m (mkState r (world g)) in
        (res, mkManager (<[key := this s]> (resources g)) (trace s))
    end.

(** The property names every plain object inherits from
    [Object.prototype].  [this.resources] is a plain object ([{}]), so
    [key in this.resources] holds for these names also when no resource
    was stored under them, and [this.resources[key]] is then the
    inherited built-in, not a resource. *)
Definition Object_prototype_keys : list string :=
  ["constructor"; "hasOwnProperty"; "isPrototypeOf"; "propertyIsEnumerable";
   "toLocaleString"; "toString"; "valueOf"; "__proto__";
   "__defineGetter__"; "__defineSetter__"; "__lookupGetter__"; "__lookupSetter__"].

Definition inherited (key : string) : bool :=
  bool_decide (key ∈ Object_prototype_keys).

(** A call of an [async] method whose promise is dropped: what it did
    before suspending stays, how it ends is not observed. *)
Definition unawaited {S A} (m : M S A) : M S unit :=
  fun s => (Ok tt, snd (m s)).

Section Manager.

Variable behaviour : nat -> list event -> list value -> outcome.

(** [new Resource(vm, options, initialValue)] *)
Definition new_Resource (options : definition) (initialValue : value)
  : M manager Resource :=
  fun g =>
    let '(res, s) := constructor options initialValue (mkState blank (world g)) in
    let g' := mkManager (resources g) (trace s) in
    match res with
    | Ok _ => (Ok (this s), g')
    | Raise e => (Raise e, g')
    end.

(** [updateResource(key, newValue, oldValue)]; [oldValue] is [None]
    when the watcher passes [undefined].  [reload()] is an [async]
    call whose promise is dropped: it runs up to its [await]. *)
Definition updateResource (key : string) (newValue : definition)
    (oldValue : option definition) : M manager unit :=
  own <- gets (fun g => resources g !! key) ;;
  (* [key in this.resources]: an own or an inherited property *)
  (if bool_decide (is_Some own) || inherited key
   then ret tt
   else
     resource <- new_Resource newValue VUndefined ;;
     modify (fun g => mkManager (<[key := resource]> (resources g)) (world g))) ;;
  (* [resource.data]; an inherited built-in has no [data] *)
  oldData <- gets (fun g => from_option data VUndefined (resources g !! key)) ;;
  (* cancel existing fetches; [resource] is an object, hence truthy *)
  (if from_option truthy_def false oldValue
   then on_resource key cancel else ret tt) ;;
  on_resource key (update newValue VUndefined) ;;
  (* keep data if it is needed between refreshes *)
  keep <- on_resource key (gets (fun s => keepData (this s))) ;;
  (if truthy keep then on_resource key (assign (set_data oldData)) else ret tt) ;;
  automatic <- on_resource key (gets (fun s => auto (this s))) ;;
  if truthy automatic
  then unawaited (on_resource key (fetch_begin behaviour))
  else ret tt.

End Manager.

(** ** Reading traces *)

(** The user functions called, in order. *)
Definition invoked (t : list event) : list nat :=
  omap (fun e => match e with EvInvoke f _ => Some f | _ => None end) t.

(** The function objects among the items of a handler list. *)
Definition functions (handlers : list value) : list nat :=
  omap (fun h => match h with VFun f => Some f | _ => None end) handlers.

(** ** Closed forms

    The definitions below describe, without the monad, what the methods
    compute; the lemmas of the second half relate them to the methods. *)

(** What one round of [runHandler] appends to the trace. *)
Definition handler_events (behaviour : nat -> list event -> list value -> outcome)
    (args : list value) (history : list event) (handler : value) : list event :=
  match handler with
  | VFun f =>
      EvInvoke f args ::
      match behaviour f history args with
      | Returns _ => []
      | Throws e => [EvConsoleError (Thrown e)]
      end
  | VObj fields =>
      match get fields "call" with
      | VFun g =>
          EvInvokeAsMethod g handler args ::
          match behaviour g history (handler :: args) with
          | Returns _ => []
          | Throws e => [EvConsoleError (Thrown e)]
          end
      | _ => [EvConsoleError TypeError]
      end
  | _ => [EvConsoleError TypeError]
  end.

(** The trace after the handlers of a list have been run one after the
    other, whatever each of them does. *)
Fixpoint run_handlers (behaviour : nat -> list event -> list value -> outcome)
    (args : list value) (handlers : list value) (t : list event) : list event :=
  match handlers with
  | [] => t
  | h :: handlers' =>
      run_handlers behaviour args handlers' (t ++ handler_events behaviour args t h)
  end.

(** The second loop of [emit] seen on the array alone: the handlers it
    calls, in order, and the array it leaves behind. *)
Fixpoint once_rounds (rounds k : nat) (arr : list value) : list value * list value :=
  match rounds with
  | O => ([], arr)
  | S rounds' =>
      match arr !! k with
      | None => once_rounds rounds' (S k) arr
      | Some handler =>
          let '(called, remaining) :=
            once_rounds rounds' (S k) (splice1 arr (indexOf arr handler)) in
          (handler :: called, remaining)
      end
  end.

(** The one-shot handlers [emit] calls for a key, and those it leaves. *)
Definition once_called (r : Resource) (key : string) : list value :=
  match onceListeners r !! key with
  | None => []
  | Some arr => fst (once_rounds (length arr) 0 arr)
  end.

Definition once_left (r : Resource) (key : string) : gmap string (list value) :=
  match onceListeners r !! key with
  | None => onceListeners r
  | Some arr => <[key := snd (once_rounds (length arr) 0 arr)]> (onceListeners r)
  end.

(** The items at even positions, and those at odd positions. *)
Fixpoint every_other (l : list value) : list value * list value :=
  match l with
  | [] => ([], [])
  | [x] => ([x], [])
  | x :: y :: l' => let '(evens, odds) := every_other l' in (x :: evens, y :: odds)
  end.

(** The guard of [update]. *)
Definition method_conflict (r : Resource) (o : object) : bool :=
  truthy (method r) && truthy (get o "method")
  && negb (strict_eq (get o "method") (method r)).

(** The table the loop over [listenerKeys] builds, starting from [m]. *)
Definition register_all (o : object) (ks : list string)
    (m : gmap string (list value)) : gmap string (list value) :=
  foldl (fun m key => <[key := default [] (m !! key) ++ concat_arg (get o key)]> m) m ks.

Definition listener_table (o : object) : gmap string (list value) :=
  register_all o (List.filter (String.prefix "on") (keys o)) ∅.

(** The resource [update] leaves when it does not throw. *)
Definition updated (o : object) (initialValue : value) (r : Resource) : Resource :=
  mkResource
    (method r)
    (js_or (get o "params") VNull)
    (js_or (get o "auto") (VBool false))
    (js_or (get o "keepData") (VBool false))
    (if truthy (get o "condition") then CondValue (get o "condition") else CondAlways)
    (js_or (get o "paged") (VBool false))
    (listener_table o)
    ∅
    (js_or (js_or initialValue (get o "default")) VNull)
    VNull false None.

(** What a successful answer makes of [data]. *)
Definition fetched_data (r : Resource) (fetched : value) : value :=
  if isArray fetched && truthy (paged r)
  then VArr (concat_arg (js_or (data r) (VArr [])) ++ concat_arg fetched)
  else fetched.

(** The last two assignments of [fetch]. *)
Definition settled_at (now : Z) (s : state) : state :=
  mkState (set_loading false (set_lastLoaded (Some now) (this s))) (trace s).

(** The resource [updateResource] holds once [update] has run and the
    data kept from before has been put back. *)
Definition reconfigured (o : object) (oldData : value) (r : Resource) : Resource :=
  let r1 := updated o VUndefined r in
  if truthy (keepData r1) then set_data oldData r1 else r1.

(** The resource the constructor builds from a config with a method. *)
Definition constructed (o : object) : Resource :=
  updated o VUndefined (set_method (get o "method") blank).

Section Derived.

Variable behaviour : nat -> list event -> list value -> outcome.

(** The state [emit] leaves. *)
Definition after_emit (event : string) (args : list value) (s : state) : state :=
  snd (emit behaviour event args s).

(** [this.condition()] evaluates to a truthy value in state [s]. *)
Definition condition_passes (s : state) : Prop :=
  exists c, fst (call_condition behaviour s) = Ok c /\ truthy c = true.

(** [this.condition()] evaluates to a falsy value in state [s]. *)
Definition condition_fails (s : state) : Prop :=
  exists c, fst (call_condition behaviour s) = Ok c /\ truthy c = false.

(** The state in which [fetch] suspends once the call is issued. *)
Definition suspended (s : state) : state :=
  mkState (set_loading true (this s))
          (trace (snd (call_condition behaviour s))
           ++ [EvCall (method (this s)) (params (this s))]).

(** The state in which [updateResource] returns: [reload()] has run up
    to its [await] when the [auto] flag is set. *)
Definition reloaded (r : Resource) (w : list event) : state :=
  if truthy (auto r)
  then snd (fetch_begin behaviour (mkState r w))
  else mkState r w.

End Derived.

(** ** Sample resources and user functions *)

(** User functions that return [undefined]. *)
Definition quiet : nat -> list event -> list value -> outcome :=
  fun _ _ _ => Returns VUndefined.

(** User functions of which number 1 throws the string [boom]. *)
Definition grumpy : nat -> list event -> list value -> outcome :=
  fun f _ _ => if Nat.eqb f 1 then Throws (VStr "boom") else Returns VUndefined.

(** User functions of which number 6 returns [false]. *)
Definition refusing : nat -> list event -> list value -> outcome :=
  fun f _ _ => if Nat.eqb f 6 then Returns (VBool false) else Returns VUndefined.

Definition resource_a : Resource :=
  mkResource (VStr "a") (VObj [("page", VNum 1)]) (VBool true) (VBool false)
             CondAlways (VBool false) {[ "onSuccess" := [VFun 1] ]} ∅
             (VObj [("x", VNum 1)]) VNull false (Some 1700000000).

Definition resource_b : Resource :=
  mkResource (VStr "list_items") VNull (VBool true) (VBool false) CondAlways
             (VBool true)
             {[ "onSuccess" := [VFun 1; VFun 2]; "onError" := [VFun 1; VFun 3] ]} ∅
             VNull VNull false None.

Definition resource_x : Resource :=
  mkResource (VStr "search") (VObj [("q", VStr "old")]) (VBool false) (VBool true)
             CondAlways (VBool false) ∅ ∅ (VObj [("x", VNum 1)]) VNull false (Some 7).

(** ** The constructor of [ResourceManager] *)

(** An entry of [resourceDefs]: a function of the host state (a dynamic
    definition, [typeof resourceDef === 'function']) or a static
    definition, a bare method string or a config object. *)
Inductive resourceDef : Type :=
| DynamicDef (f : nat)
| StaticDef (d : definition).

(** The triple pushed on [_watchers]: the getter [() => resourceDef.call(vm)]
    of the function [source], the callback
    [(n, o) => this.updateResource(key, n, o)] of [key], and the options. *)
Record watcher : Type := mkWatcher {
  source : nat;
  target : string;
  immediate : bool;
  deep : bool;
  sync : bool
}.

Section ManagerConstructor.

Variable behaviour : nat -> list event -> list value -> outcome.

(** The loop [for (let key in resourceDefs)] of the constructor.  The
    list holds the entries of [resourceDefs] in the order in which
    [for ... in] enumerates them: the integer-like keys first, in
    ascending order, then the other keys in the order in which they
    were added.  The state holds the local [resources], the argument
    the [_watchers] pushed so far. *)
Fixpoint define_resources (resourceDefs : list (string * resourceDef))
    (watchers : list watcher) : M manager (list watcher) :=
  match resourceDefs with
  | [] => ret watchers
  | (key, DynamicDef f) :: rest =>
      define_resources rest (watchers ++ [mkWatcher f key true true true])
  | (key, StaticDef resourceDef) :: rest =>
      resource <- new_Resource resourceDef VUndefined ;;
      modify (fun g => mkManager (<[key := resource]> (resources g)) (world g)) ;;
      (if truthy (auto resource)
       then unawaited (on_resource key (fetch_begin behaviour))
       else ret tt) ;;
      define_resources rest watchers
  end.

(** [constructor(vm, resourceDefs)]: the watchers and the resources of
    the new manager. *)
Definition new_ResourceManager (resourceDefs : list (string * resourceDef))
  : M manager (list watcher) :=
  modify (fun g => mkManager ∅ (world g)) ;;
  define_resources resourceDefs [].

End ManagerConstructor.

(** The keys of the static definitions that lack a method. *)
Definition lacks_method (entry : string * resourceDef) : bool :=
  match entry.2 with
  | DynamicDef _ => false
  | StaticDef d => negb (truthy (get (normalize d) "method"))
  end.

(** The watcher of a dynamic definition. *)
Definition watcher_of (entry : string * resourceDef) : option watcher :=
  match entry.2 with
  | DynamicDef f => Some (mkWatcher f entry.1 true true true)
  | StaticDef _ => None
  end.

(** The call an automatic static definition without a condition of its
    own gives rise to. *)
Definition initial_call (entry : string * resourceDef) : option (value * value) :=
  match entry.2 with
  | DynamicDef _ => None
  | StaticDef d =>
      let r := constructed (normalize d) in
      if truthy (auto r) then Some (method r, params r) else None
  end.

(** The static definition has no (truthy) [condition] of its own. *)
Definition unconditional (entry : string * resourceDef) : bool :=
  match entry.2 with
  | DynamicDef _ => true
  | StaticDef d => negb (truthy (get (normalize d) "condition"))
  end.

(** ** The notification queue

    Source: the module that exports [notifications], [hideNotification]
    and [notify].  A props object is mutated by [notify] and read later
    by the timer it sets, so the objects live in a store and the queue
    holds references to them. *)

Record toasts : Type := mkToasts {
  props_of : nat -> object;        (* the props objects, by reference *)
  notifications : list nat;        (* [notifications.value] *)
  timers : list (value * nat)      (* the [setTimeout]s set: delay, props read *)
}.

(** [o[k] = v]: an own property keeps its place, a new one goes last. *)
Fixpoint set_prop (o : object) (k : string) (v : value) : object :=
  match o with
  | [] => [(k, v)]
  | (k', v') :: o' =>
      if String.eqb k' k then (k, v) :: o' else (k', v') :: set_prop o' k v
  end.

(** [hideNotification(id)] *)
Definition hideNotification (id : value) (q : toasts) : toasts :=
  mkToasts
    (props_of q)
    (List.filter (fun props => negb (strict_eq (get (props_of q props) "id") id))
                 (notifications q))
    (timers q).

(** [notify(props)]; [id] is the integer
    [Math.floor(Math.random() * 1000 + Date.now())] evaluates to. *)
Definition notify (props : nat) (id : Z) (q : toasts) : toasts :=
  let store := fun p =>
    if Nat.eqb p props then set_prop (props_of q p) "id" (VNum id) else props_of q p in
  mkToasts
    store
    (notifications q ++ [props])
    (timers q ++ [(js_or (get (store props) "timeout") (VNum 5000), props)]).

(** The callback of the timer, [() => hideNotification(props.id)]. *)
Definition timer_fires (props : nat) (q : toasts) : toasts :=
  hideNotification (get (props_of q props) "id") q.

(** A queue showing two notifications, with ids 100 and 200. *)
Definition sample_toasts : toasts :=
  mkToasts
    (fun p => match p with
              | 0%nat => [("title", VStr "saved"); ("id", VNum 100)]
              | 1%nat => [("title", VStr "deployed"); ("id", VNum 200)]
              | _ => [("title", VStr "new"); ("id", VStr "mine"); ("timeout", VNum 0)]
              end)
    [0%nat; 1%nat] [].

(** Three definitions: two static ones around a dynamic one. *)
Definition sample_defs : list (string * resourceDef) :=
  [("plans", StaticDef (DefString "list_plans"));
   ("search", DynamicDef 11);
   ("site", StaticDef (DefConfig [("method", VStr "get_site");
                                  ("params", VObj [("name", VStr "a")])]))].

(** ** Further readings of a trace *)


(** The exceptions written to the console, in order. *)
Definition console_errors (t : list event) : list exn :=
  omap (fun e => match e with EvConsoleError x => Some x | _ => None end) t.

(** The calls of the remote-call collaborator, in order. *)
Definition calls (t : list event) : list (value * value) :=
  omap (fun e => match e with EvCall m p => Some (m, p) | _ => None end) t.

(** [handler.call] is a function: [handler] is a function, or an object
    whose own [call] property is one. *)
Definition has_call (handler : value) : bool :=
  match handler with
  | VFun _ => true
  | VObj fields => match get fields "call" with VFun _ => true | _ => false end
  | _ => false
  end.

(** The items of a handler list on which [handler.call(...)] fails. *)
Definition not_callable (handlers : list value) : list value :=
  List.filter (fun h => negb (has_call h)) handlers.

(** The number of [TypeError]s written to the console. *)
Definition type_errors (t : list event) : nat :=
  length (List.filter
            (fun e => match e with EvConsoleError TypeError => true | _ => false end) t).

(** A user function that throws the string [no], as number 6. *)
Definition throwing : nat -> list event -> list value -> outcome :=
  fun f _ _ => if Nat.eqb f 6 then Throws (VStr "no") else Returns VUndefined.

(** ** Basic facts *)

Lemma set_onceListeners_same r : set_onceListeners (onceListeners r) r = r.
Proof. by destruct r. Qed.

Lemma invoked_app t1 t2 : invoked (t1 ++ t2) = invoked t1 ++ invoked t2.
Proof. unfold invoked. apply omap_app. Qed.

Lemma functions_app l1 l2 : functions (l1 ++ l2) = functions l1 ++ functions l2.
Proof. unfold functions. apply omap_app. Qed.

Lemma invoked_handler_events behaviour args history h :
  invoked (handler_events behaviour args history h) = functions [h].
Proof.
  destruct h; simpl; try reflexivity.
  - destruct (get fields "call"); simpl; try reflexivity.
    by destruct (behaviour f history (VObj fields :: args)).
  - by destruct (behaviour f history args).
Qed.

Lemma invoked_run_handlers behaviour args handlers t :
  invoked (run_handlers behaviour args handlers t) = invoked t ++ functions handlers.
Proof.
  revert t. induction handlers as [|h handlers IH]; intros t; simpl.
  - by rewrite app_nil_r.
  - rewrite IH, invoked_app, invoked_handler_events, <- app_assoc.
    by rewrite <- functions_app.
Qed.

Lemma run_handlers_app behaviour args l1 l2 t :
  run_handlers behaviour args (l1 ++ l2) t
  = run_handlers behaviour args l2 (run_handlers behaviour args l1 t).
Proof. revert t. induction l1 as [|h l1 IH]; intros t; simpl; [done|apply IH]. Qed.

Section Emit.

Variable behaviour : nat -> list event -> list value -> outcome.

(** [runHandler] always returns, leaves the resource alone and appends
    the events of one round. *)
Lemma runHandler_spec args handler s :
  runHandler behaviour args handler s
  = (Ok tt, mkState (this s) (trace s ++ handler_events behaviour args (trace s) handler)).
Proof.
  destruct s as [r t].
  destruct handler; try reflexivity.
  - unfold runHandler, try_catch, call_handler, bind, gets, log, modify; simpl.
    destruct (get fields "call"); try reflexivity. simpl.
    destruct (behaviour f t (VObj fields :: args)); unfold ret, throw; simpl.
    + reflexivity.
    + by rewrite <- app_assoc.
  - unfold runHandler, try_catch, call_handler, call_function, bind, gets, log, modify;
      simpl.
    destruct (behaviour f t args); unfold ret, throw; simpl.
    + reflexivity.
    + by rewrite <- app_assoc.
Qed.

Lemma forEach_runHandler args handlers s :
  forEach (runHandler behaviour args) handlers s
  = (Ok tt, mkState (this s) (run_handlers behaviour args handlers (trace s))).
Proof.
  revert s. induction handlers as [|h handlers IH]; intros s; simpl.
  - by destruct s.
  - unfold bind. rewrite runHandler_spec. by rewrite IH.
Qed.

Lemma forEach_once_spec key args rounds : forall k s arr,
  onceListeners (this s) !! key = Some arr ->
  forEach_once behaviour key args rounds k s
  = (Ok tt,
     mkState
       (set_onceListeners
          (<[key := snd (once_rounds rounds k arr)]> (onceListeners (this s))) (this s))
       (run_handlers behaviour args (fst (once_rounds rounds k arr)) (trace s))).
Proof.
  induction rounds as [|rounds IH]; intros k s arr Harr; simpl.
  - rewrite insert_id by done. rewrite set_onceListeners_same. by destruct s.
  - unfold bind at 1, gets at 1. simpl. rewrite Harr. simpl.
    destruct (arr !! k) as [handler|] eqn:Hk.
    + unfold bind at 1. rewrite runHandler_spec.
      unfold bind at 1, assign at 1, modify at 1. simpl. rewrite Harr. simpl.
      erewrite IH by (simpl; apply lookup_insert_eq).
      destruct (once_rounds rounds (S k) (splice1 arr (indexOf arr handler)))
        as [called remaining]; simpl.
      by rewrite insert_insert_eq.
    + by apply IH.
Qed.

Lemma emit_spec event args s :
  let key := String.append "on" event in
  emit behaviour event args s
  = (Ok tt,
     mkState
       (set_onceListeners (once_left (this s) key) (this s))
       (run_handlers behaviour args
          (default [] (listeners (this s) !! key) ++ once_called (this s) key)
          (trace s))).
Proof.
  intros key. unfold emit. fold key.
  unfold bind at 1, gets at 1. simpl.
  unfold bind at 1. rewrite forEach_runHandler.
  unfold bind at 1, gets at 1. simpl.
  unfold once_called, once_left. rewrite run_handlers_app.
  destruct (onceListeners (this s) !! key) as [arr|] eqn:Harr.
  - by erewrite forEach_once_spec by (simpl; exact Harr).
  - simpl. unfold ret. by rewrite set_onceListeners_same.
Qed.

End Emit.

(** ** [update] in closed form *)

Lemma forEach_on (o : object) ks s :
  forEach (fun key => on key (get o key)) ks s
  = (Ok tt, mkState (set_listeners (register_all o ks (listeners (this s))) (this s)) (trace s)).
Proof.
  revert s. induction ks as [|k ks IH]; intros [r t]; simpl.
  - unfold ret. by destruct r.
  - unfold bind. simpl. by rewrite IH.
Qed.

Lemma update_throws options initialValue s :
  method_conflict (this s) (normalize options) = true ->
  update options initialValue s = (Raise (JsError method_cannot_change), s).
Proof.
  intros H. unfold update, bind, gets. simpl.
  unfold method_conflict in H. by rewrite H.
Qed.

Lemma update_ok options initialValue s :
  method_conflict (this s) (normalize options) = false ->
  update options initialValue s
  = (Ok tt, mkState (updated (normalize options) initialValue (this s)) (trace s)).
Proof.
  intros H. unfold update. unfold bind at 1, gets at 1. simpl.
  unfold method_conflict in H. rewrite H.
  destruct s as [r t]. unfold bind, assign, modify. simpl.
  by rewrite forEach_on.
Qed.

Lemma register_all_lookup (o : object) ks : forall m k,
  NoDup ks ->
  register_all o ks m !! k
  = if bool_decide (k ∈ ks)
    then Some (default [] (m !! k) ++ concat_arg (get o k))
    else m !! k.
Proof.
  induction ks as [|k0 ks IH]; intros m k Hnd; simpl.
  - done.
  - apply NoDup_cons in Hnd as [Hk0 Hnd].
    change (register_all o (k0 :: ks) m)
      with (register_all o ks (<[k0 := default [] (m !! k0) ++ concat_arg (get o k0)]> m)).
    rewrite IH by done.
    destruct (decide (k = k0)) as [->|Hne].
    + rewrite (bool_decide_eq_false_2 (k0 ∈ ks)) by done.
      rewrite (bool_decide_eq_true_2 (k0 ∈ k0 :: ks)) by (left).
      by rewrite lookup_insert_eq.
    + rewrite lookup_insert_ne by done.
      destruct (decide (k ∈ ks)) as [Hin|Hnin].
      * rewrite !bool_decide_eq_true_2; [done|by right|done].
      * rewrite !bool_decide_eq_false_2; [done| |done].
        intros Hin. apply elem_of_cons in Hin as [?|?]; done.
Qed.

Lemma NoDup_listener_keys (o : object) :
  NoDup (keys o) -> NoDup (List.filter (String.prefix "on") (keys o)).
Proof.
  induction (keys o) as [|k ks IH]; intros Hnd; simpl.
  - constructor.
  - apply NoDup_cons in Hnd as [Hk Hnd].
    destruct (String.prefix "on" k); [|by apply IH].
    apply NoDup_cons. split; [|by apply IH].
    intros Hin. apply Hk. apply list_elem_of_In in Hin.
    apply List.filter_In in Hin as [Hin _]. by apply list_elem_of_In.
Qed.

(** With the keys of a config all different, the table holds, under each
    key that starts with [on], the items the value of that key gives to
    [concat], and nothing else. *)
Lemma listener_table_lookup (o : object) k :
  NoDup (keys o) ->
  listener_table o !! k
  = if String.prefix "on" k && bool_decide (k ∈ keys o)
    then Some (concat_arg (get o k)) else None.
Proof.
  intros Hnd. unfold listener_table.
  rewrite register_all_lookup by by apply NoDup_listener_keys.
  rewrite lookup_empty. simpl.
  destruct (String.prefix "on" k) eqn:Hp; simpl.
  - destruct (decide (k ∈ keys o)) as [Hin|Hnin].
    + rewrite !bool_decide_eq_true_2; [done|done|].
      apply list_elem_of_In, List.filter_In. split; [by apply list_elem_of_In|done].
    + rewrite !bool_decide_eq_false_2; [done|done|].
      intros Hin. apply list_elem_of_In, List.filter_In in Hin as [Hin _].
      by apply Hnin, list_elem_of_In.
  - rewrite bool_decide_eq_false_2; [done|].
    intros Hin. apply list_elem_of_In, List.filter_In in Hin as [_ Hin]. congruence.
Qed.

Lemma strict_eq_refl v : strict_eq v v = true.
Proof. unfold strict_eq. by apply bool_decide_eq_true_2. Qed.

Lemma constructor_ok options initialValue s :
  truthy (get (normalize options) "method") = true ->
  constructor options initialValue s
  = (Ok tt,
     mkState
       (updated (normalize options) initialValue
          (set_method (get (normalize options) "method") (this s)))
       (trace s)).
Proof.
  intros Hm. unfold constructor. rewrite Hm. simpl.
  unfold bind at 1, assign at 1, modify at 1.
  rewrite update_ok; [done|].
  unfold method_conflict. simpl. by rewrite strict_eq_refl, andb_false_r.
Qed.

Lemma constructor_throws options initialValue s :
  truthy (get (normalize options) "method") = false ->
  constructor options initialValue s = (Raise (JsError method_required), s).
Proof. intros Hm. unfold constructor. by rewrite Hm. Qed.

Lemma get_in_keys (o : object) k : get o k <> VUndefined -> k ∈ keys o.
Proof.
  induction o as [|[k' v] o IH]; simpl; [done|].
  destruct (String.eqb_spec k' k) as [->|Hne]; intros H.
  - left.
  - right. by apply IH.
Qed.

Lemma prefix_on event : String.prefix "on" (String.append "on" event) = true.
Proof.
  unfold String.append. cbn. by destruct event.
Qed.

(** ** The claims about [update] *)

(** C7: [update] throws exactly when the resource's method is set and the
    normalized config gives a different method; what it throws is a
    configuration error and the resource is as it was before the call;
    a config without a method is accepted, and an accepted update keeps
    the method. *)
Theorem update_method_conflict (options : definition) (initialValue : value) (s : state) :
  let given := get (normalize options) "method" in
  ((exists e, fst (update options initialValue s) = Raise e)
   <-> truthy (method (this s)) = true /\ truthy given = true
       /\ given <> method (this s))
  /\ (forall e, fst (update options initialValue s) = Raise e ->
        ConfigurationError e /\ snd (update options initialValue s) = s)
  /\ (given = VUndefined -> fst (update options initialValue s) = Ok tt)
  /\ (fst (update options initialValue s) = Ok tt ->
        method (this (snd (update options initialValue s))) = method (this s)).
Proof.
  intros given.
  destruct (method_conflict (this s) (normalize options)) eqn:Hc.
  - rewrite update_throws by done. simpl.
    unfold method_conflict in Hc. fold given in Hc.
    apply andb_prop in Hc as [Hc Hne]. apply andb_prop in Hc as [Hset Hgiven].
    apply negb_true_iff, bool_decide_eq_false in Hne.
    split; [|split; [|split]].
    + split; [done|]. intros _. by eexists.
    + intros e [= <-]. split; [by right|done].
    + intros Hu. rewrite Hu in Hgiven. discriminate.
    + done.
  - rewrite update_ok by done. simpl.
    split; [|split; [|split]]; try done.
    split.
    + by intros [e ?].
    + intros (Hset & Hgiven & Hne). unfold method_conflict in Hc. fold given in Hc.
      rewrite Hset, Hgiven in Hc. simpl in Hc.
      apply negb_false_iff, bool_decide_eq_true in Hc. done.
Qed.

Lemma update_method_conflict_witness :
  fst (update (DefConfig [("method", VStr "b")]) VUndefined (mkState resource_a []))
    = Raise (JsError method_cannot_change)
  /\ snd (update (DefConfig [("method", VStr "b")]) VUndefined (mkState resource_a []))
     = mkState resource_a []
  /\ fst (update (DefConfig [("params", VObj [("page", VNum 2)])]) VUndefined
            (mkState resource_a [])) = Ok tt.
Proof.
  destruct (update_method_conflict (DefConfig [("method", VStr "b")]) VUndefined
              (mkState resource_a [])) as (_ & Hraise & _).
  destruct (update_method_conflict (DefConfig [("params", VObj [("page", VNum 2)])])
              VUndefined (mkState resource_a [])) as (_ & _ & Homit & _).
  split; [reflexivity|]. split.
  - apply (Hraise (JsError method_cannot_change)). reflexivity.
  - apply Homit. reflexivity.
Defined.

(** C10: [update] and the constructor test the truthiness of what they are
    given: with a falsy initial value and a falsy [default] the data is
    [null], and a falsy [params] becomes [null]. *)
Theorem falsy_inputs_become_null (options : definition) (initialValue : value)
    (s s' : state) :
  update options initialValue s = (Ok tt, s')
  \/ constructor options initialValue s = (Ok tt, s') ->
  (truthy initialValue = false ->
   truthy (get (normalize options) "default") = false ->
   data (this s') = VNull)
  /\ (truthy (get (normalize options) "params") = false ->
      params (this s') = VNull).
Proof.
  intros Hrun.
  assert (exists r, this s' = updated (normalize options) initialValue r) as [r ->].
  { destruct Hrun as [Hrun|Hrun].
    - destruct (method_conflict (this s) (normalize options)) eqn:Hc.
      + rewrite update_throws in Hrun by done. discriminate.
      + rewrite update_ok in Hrun by done. injection Hrun as <-. by eexists.
    - destruct (truthy (get (normalize options) "method")) eqn:Hm.
      + rewrite constructor_ok in Hrun by done. injection Hrun as <-. by eexists.
      + rewrite constructor_throws in Hrun by done. discriminate. }
  simpl. unfold js_or. split.
  - by intros -> ->.
  - by intros ->.
Qed.

Lemma falsy_inputs_become_null_witness :
  let options := DefConfig [("method", VStr "a"); ("params", VStr ""); ("default", VNum 0)] in
  data (this (snd (update options (VBool false) (mkState resource_a [])))) = VNull
  /\ params (this (snd (constructor options (VNum 0) (mkState blank [])))) = VNull.
Proof.
  intros options. split.
  - apply (falsy_inputs_become_null options (VBool false) (mkState resource_a []) _
             (or_introl eq_refl)); reflexivity.
  - apply (falsy_inputs_become_null options (VNum 0) (mkState blank []) _
             (or_intror eq_refl)); reflexivity.
Defined.

(** C8, as stated, fails: the handler given under the config key
    [onceSuccess] is not a one-shot handler for [Success].  It is stored
    in the persistent table under the key [onceSuccess], the one-shot
    table stays empty, and an emit of [Success] does not call it. *)
Lemma onceSuccess_key_is_not_one_shot :
  let s := snd (update (DefConfig [("method", VStr "a"); ("onceSuccess", VFun 8)])
                  VUndefined (mkState resource_a [])) in
  onceListeners (this s) = ∅
  /\ listeners (this s) !! "onceSuccess" = Some [VFun 8]
  /\ listeners (this s) !! "onSuccess" = None
  /\ invoked (trace (snd (emit quiet "Success" [] s))) = [].
Proof. vm_compute. repeat split; reflexivity. Qed.

(** C8, amended: [update] rebuilds the listener tables from nothing.  The
    one-shot table is left empty, and the persistent table holds exactly
    the config keys that start with [on], each with the value of that
    key as its handler, whatever was registered before; a later emit of
    [Success] calls the function given under [onSuccess]. *)
Theorem update_rebuilds_listeners
    (behaviour : nat -> list event -> list value -> outcome)
    (options : definition) (initialValue : value) (s s' : state) :
  NoDup (keys (normalize options)) ->
  update options initialValue s = (Ok tt, s') ->
  let o := normalize options in
  onceListeners (this s') = ∅
  /\ (forall k, listeners (this s') !! k
                = if String.prefix "on" k && bool_decide (k ∈ keys o)
                  then Some (concat_arg (get o k)) else None)
  /\ (forall event h args,
        get o (String.append "on" event) = VFun h ->
        exists s'', emit behaviour event args s' = (Ok tt, s'')
                    /\ invoked (trace s'') = invoked (trace s') ++ [h]).
Proof.
  intros Hnd Hrun o.
  destruct (method_conflict (this s) (normalize options)) eqn:Hc.
  { rewrite update_throws in Hrun by done. discriminate. }
  rewrite update_ok in Hrun by done. injection Hrun as <-. fold o. simpl.
  split; [done|]. split.
  - intros k. by apply listener_table_lookup.
  - intros event h args Hh. eexists. split; [apply emit_spec|].
    simpl. rewrite invoked_run_handlers. f_equal.
    unfold once_called. simpl. rewrite lookup_empty, app_nil_r.
    rewrite listener_table_lookup by done.
    rewrite prefix_on, bool_decide_eq_true_2.
    + simpl. by rewrite Hh.
    + apply get_in_keys. by rewrite Hh.
Qed.

Lemma update_rebuilds_listeners_witness :
  let options := DefConfig [("method", VStr "a"); ("onSuccess", VFun 7)] in
  let s' := snd (update options VUndefined (mkState resource_a [])) in
  onceListeners (this s') = ∅
  /\ exists s'', emit quiet "Success" [VNum 1] s' = (Ok tt, s'')
                 /\ invoked (trace s'') = invoked (trace s') ++ [7%nat].
Proof.
  intros options s'.
  assert (Hnd : NoDup (keys (normalize options))).
  { apply NoDup_cons. split; [|apply NoDup_singleton].
    intros H. apply list_elem_of_singleton in H. discriminate. }
  destruct (update_rebuilds_listeners quiet options VUndefined (mkState resource_a []) s'
              Hnd eq_refl) as (Honce & _ & Hemit).
  split; [exact Honce|]. apply (Hemit "Success" 7%nat). reflexivity.
Defined.

(** ** The claims about [on], [once] and [emit] *)

(** C1, as stated, fails: [on] does not normalize the name it is given.
    A handler registered with [on('Error', h)] is stored under the key
    [Error]; [emit('Error')] reads the key [onError] and does not call
    it. *)
Lemma on_Error_is_not_reached_by_emit_Error :
  let s := snd (on "Error" (VFun 1) (mkState blank [])) in
  listeners (this s) !! "Error" = Some [VFun 1]
  /\ listeners (this s) !! "onError" = None
  /\ invoked (trace (snd ((emit quiet "Error" [] ;; emit quiet "Error" [])%js s))) = [].
Proof. vm_compute. repeat split; reflexivity. Qed.

(** C1, amended: [on(key, h)] and [once(key, h)] append [h] to the ordered
    list stored under [key] exactly as given and leave the lists under
    every other key alone.  Every [emit(E)], whatever the one-shot list
    of the event holds, calls the persistent handlers stored under
    ['on' + E] in registration order, then the one-shot handlers of that
    key its second loop reaches, and leaves the persistent table as it
    was.  So a handler [h] registered under the key ['on' + E] is called
    by each of two later emits of [E], each time right after the
    persistent handlers registered there before it; when no one-shot
    handler is registered for the event these are all the calls: the
    earlier handlers and then [h], twice over. *)
Theorem on_stores_under_given_key
    (behaviour : nat -> list event -> list value -> outcome)
    (key : string) (handler : value) (event : string) (h : nat)
    (args : list value) (s : state) :
  (isArray handler = false ->
     on key handler s
     = (Ok tt, mkState (set_listeners
                          (<[key := default [] (listeners (this s) !! key) ++ [handler]]>
                             (listeners (this s))) (this s)) (trace s))
     /\ once key handler s
        = (Ok tt, mkState (set_onceListeners
                             (<[key := default [] (onceListeners (this s) !! key) ++ [handler]]>
                                (onceListeners (this s))) (this s)) (trace s)))
  /\ (forall other, other <> key ->
        listeners (this (snd (on key handler s))) !! other = listeners (this s) !! other
        /\ onceListeners (this (snd (once key handler s))) !! other
           = onceListeners (this s) !! other)
  /\ (exists s1,
        emit behaviour event args s = (Ok tt, s1)
        /\ invoked (trace s1)
           = invoked (trace s)
             ++ functions (default [] (listeners (this s) !! String.append "on" event))
             ++ functions (once_called (this s) (String.append "on" event))
        /\ listeners (this s1) = listeners (this s))
  /\ (let k := String.append "on" event in
      let earlier := default [] (listeners (this s) !! k) in
      let first := once_called (this s) k in
      let second := once_called (set_onceListeners (once_left (this s) k) (this s)) k in
      exists s2,
        (on k (VFun h) ;;
         emit behaviour event args ;;
         emit behaviour event args)%js s = (Ok tt, s2)
        /\ invoked (trace s2)
           = invoked (trace s)
             ++ (functions earlier ++ [h]) ++ functions first
             ++ (functions earlier ++ [h]) ++ functions second
        /\ listeners (this s2) !! k = Some (earlier ++ [VFun h])
        /\ (default [] (onceListeners (this s) !! k) = [] ->
            invoked (trace s2)
            = invoked (trace s) ++ (functions earlier ++ [h]) ++ (functions earlier ++ [h]))).
Proof.
  split; [|split; [|split]].
  - intros Hh. unfold on, once, assign, modify.
    destruct handler; try discriminate; done.
  - intros other Hne. unfold on, once, assign, modify. simpl.
    by rewrite !lookup_insert_ne.
  - eexists. split; [apply emit_spec|]. cbn [this trace].
    split; [by rewrite invoked_run_handlers, functions_app|].
    by destruct s as [[] ?].
  - intros k earlier first second.
    unfold bind at 1. unfold on at 1, assign, modify.
    unfold bind at 1. rewrite emit_spec. fold k. cbn [this trace concat_arg].
    rewrite emit_spec. fold k. eexists. split; [reflexivity|].
    cbn [this trace].
    assert (Hinv :
      invoked
        (run_handlers behaviour args
           (default []
              (listeners
                 (set_onceListeners
                    (once_left
                       (set_listeners
                          (<[k := default [] (listeners (this s) !! k) ++ [VFun h]]>
                             (listeners (this s))) (this s)) k)
                    (set_listeners
                       (<[k := default [] (listeners (this s) !! k) ++ [VFun h]]>
                          (listeners (this s))) (this s))) !! k)
            ++ once_called
                 (set_onceListeners
                    (once_left
                       (set_listeners
                          (<[k := default [] (listeners (this s) !! k) ++ [VFun h]]>
                             (listeners (this s))) (this s)) k)
                    (set_listeners
                       (<[k := default [] (listeners (this s) !! k) ++ [VFun h]]>
                          (listeners (this s))) (this s))) k)
           (run_handlers behaviour args
              (default []
                 (listeners
                    (set_listeners
                       (<[k := default [] (listeners (this s) !! k) ++ [VFun h]]>
                          (listeners (this s))) (this s)) !! k)
               ++ once_called
                    (set_listeners
                       (<[k := default [] (listeners (this s) !! k) ++ [VFun h]]>
                          (listeners (this s))) (this s)) k)
              (trace s)))
      = invoked (trace s)
        ++ (functions earlier ++ [h]) ++ functions first
        ++ (functions earlier ++ [h]) ++ functions second).
    { rewrite !invoked_run_handlers, !functions_app.
      unfold first, second, earlier. destruct s as [r t]. destruct r. simpl.
      unfold once_called, once_left, set_listeners, set_onceListeners. simpl.
      rewrite !lookup_insert_eq. simpl. rewrite !functions_app. simpl.
      by rewrite <- !app_assoc. }
    split; [exact Hinv|]. split.
    + destruct s as [r t]. destruct r. simpl. apply lookup_insert_eq.
    + intros Hnone. rewrite Hinv.
      assert (Hfirst : first = []).
      { unfold first, once_called.
        destruct (onceListeners (this s) !! k) as [arr|]; [|done].
        simpl in Hnone. by subst arr. }
      assert (Hsecond : second = []).
      { unfold second, once_called, once_left.
        destruct (onceListeners (this s) !! k) as [arr|] eqn:Harr.
        - simpl in Hnone. subst arr. destruct s as [[] ?]. simpl in *.
          by rewrite lookup_insert_eq.
        - destruct s as [[] ?]. simpl in *. by rewrite Harr. }
      rewrite Hfirst, Hsecond. simpl. by rewrite !app_nil_r.
Qed.

Lemma on_stores_under_given_key_witness :
  let s := mkState (set_onceListeners {[ "onError" := [] ]}
                      (set_listeners {[ "onError" := [VFun 4] ]} blank)) [] in
  listeners (this (snd (on "onError" (VFun 9) s))) !! "onError" = Some [VFun 4; VFun 9]
  /\ exists s2,
       (on "onError" (VFun 9) ;; emit quiet "Error" [] ;; emit quiet "Error" [])%js s
       = (Ok tt, s2)
       /\ invoked (trace s2) = [4; 9; 4; 9]%nat.
Proof.
  intros s.
  destruct (on_stores_under_given_key quiet "onError" (VFun 9) "Error" 9%nat [] s)
    as (Hstore & _ & _ & Hemit).
  split.
  - destruct (Hstore eq_refl) as [Hon _]. rewrite Hon. reflexivity.
  - destruct Hemit as (s2 & Hrun & _ & _ & Hinv).
    exists s2. split; [exact Hrun|]. apply Hinv. reflexivity.
Defined.

(** *** The one-shot loop calls every other handler *)

Lemma once_rounds_past_end rounds : forall k arr,
  (length arr <= k)%nat -> once_rounds rounds k arr = ([], arr).
Proof.
  induction rounds as [|rounds IH]; intros k arr Hk; simpl; [done|].
  rewrite lookup_ge_None_2 by done. apply IH. lia.
Qed.

Lemma indexOf_middle kept x rest :
  x ∉ kept -> indexOf (kept ++ x :: rest) x = Z.of_nat (length kept).
Proof.
  induction kept as [|y kept IH]; intros Hx; simpl.
  - by rewrite strict_eq_refl.
  - apply not_elem_of_cons in Hx as [Hne Hx].
    unfold strict_eq at 1. rewrite bool_decide_eq_false_2 by congruence.
    rewrite IH by done.
    destruct (Z.ltb_spec (Z.of_nat (length kept)) 0); lia.
Qed.

Lemma splice1_middle kept x rest :
  splice1 (kept ++ x :: rest) (Z.of_nat (length kept)) = kept ++ rest.
Proof.
  unfold splice1.
  destruct (Z.ltb_spec (Z.of_nat (length kept)) 0) as [?|_]; [lia|].
  rewrite length_app. simpl.
  replace (Z.to_nat (Z.min _ _)) with (length kept) by lia.
  induction kept as [|y kept IH]; simpl; [done|]. by f_equal.
Qed.

(** On an array without repetition the loop calls the handlers at even
    positions and leaves those at odd positions registered. *)
Lemma once_rounds_every_other rounds : forall kept rest,
  NoDup (kept ++ rest) ->
  (length rest <= rounds)%nat ->
  once_rounds rounds (length kept) (kept ++ rest)
  = (fst (every_other rest), kept ++ snd (every_other rest)).
Proof.
  induction rounds as [|rounds IH]; intros kept rest Hnd Hlen.
  - destruct rest; [|simpl in Hlen; lia]. by simpl.
  - destruct rest as [|x rest].
    + rewrite once_rounds_past_end by (rewrite app_nil_r; lia). by simpl.
    + cbn [once_rounds]. rewrite list_lookup_middle by done.
      assert (Hx : x ∉ kept).
      { apply NoDup_app in Hnd as (_ & Hdis & _). intros Hin.
        apply (Hdis x Hin). left. }
      rewrite indexOf_middle, splice1_middle by done.
      destruct rest as [|y rest].
      * rewrite once_rounds_past_end by (rewrite app_nil_r; lia). by simpl.
      * replace (S (length kept)) with (length (kept ++ [y]))
          by (rewrite length_app; simpl; lia).
        replace (kept ++ y :: rest) with ((kept ++ [y]) ++ rest)
          by (by rewrite <- app_assoc).
        rewrite IH.
        -- simpl. destruct (every_other rest) as [evens odds]. simpl.
           by rewrite <- app_assoc.
        -- rewrite <- app_assoc. simpl.
           apply NoDup_app in Hnd as (Hk & Hdis & Hr).
           apply NoDup_cons in Hr as [_ Hr].
           apply NoDup_app. split; [done|]. split; [|done].
           intros z Hz Hin. apply (Hdis z Hz). by right.
        -- simpl in Hlen. lia.
Qed.

Lemma once_called_every_other r key arr :
  onceListeners r !! key = Some arr -> NoDup arr ->
  once_called r key = fst (every_other arr)
  /\ once_left r key = <[key := snd (every_other arr)]> (onceListeners r).
Proof.
  intros Harr Hnd. unfold once_called, once_left. rewrite Harr.
  pose proof (once_rounds_every_other (length arr) [] arr Hnd (le_n _)) as H.
  simpl in H. by rewrite H.
Qed.

(** A single one-shot handler is called by the first emit and by no
    later one. *)
Lemma single_once_handler_runs_once
    (behaviour : nat -> list event -> list value -> outcome)
    (event : string) (h : nat) (args : list value) (s : state) :
  listeners (this s) !! String.append "on" event = None ->
  onceListeners (this s) !! String.append "on" event = None ->
  exists s2,
    (once (String.append "on" event) (VFun h) ;;
     emit behaviour event args ;;
     emit behaviour event args)%js s = (Ok tt, s2)
    /\ invoked (trace s2) = invoked (trace s) ++ [h]
    /\ onceListeners (this s2) !! String.append "on" event = Some [].
Proof.
  intros Hon Honce. set (k := String.append "on" event) in *.
  unfold bind at 1. unfold once at 1, assign, modify.
  unfold bind at 1. rewrite emit_spec. fold k. cbn [this trace concat_arg].
  rewrite emit_spec. fold k. eexists. split; [reflexivity|].
  cbn [this trace]. destruct s as [r t]. destruct r. simpl in *.
  unfold once_called, once_left, set_onceListeners. simpl.
  rewrite Hon, Honce. simpl. rewrite !lookup_insert_eq. simpl.
  rewrite ?lookup_insert_eq. simpl.
  rewrite strict_eq_refl. simpl. rewrite ?lookup_insert_eq.
  split; [|done].
  destruct (behaviour h t args); simpl; by rewrite invoked_app.
Qed.

(** C2 fails on the code.  With two one-shot handlers registered for
    [Success], a single emit calls the first only: removing it moves the
    second to index 0 while the loop goes on to index 1, so the second
    is skipped and stays registered; it is the next emit that calls it. *)
Theorem emit_skips_second_once_handler
    (behaviour : nat -> list event -> list value -> outcome) (args : list value) :
  exists s1 s2 s3,
    (once "onSuccess" (VFun 1) ;; once "onSuccess" (VFun 2))%js (mkState blank [])
    = (Ok tt, s1)
    /\ onceListeners (this s1) !! "onSuccess" = Some [VFun 1; VFun 2]
    /\ emit behaviour "Success" args s1 = (Ok tt, s2)
    /\ invoked (trace s2) = [1%nat]
    /\ onceListeners (this s2) !! "onSuccess" = Some [VFun 2]
    /\ emit behaviour "Success" args s2 = (Ok tt, s3)
    /\ invoked (trace s3) = [1%nat; 2%nat]
    /\ onceListeners (this s3) !! "onSuccess" = Some [].
Proof.
  eexists. eexists. eexists.
  split; [reflexivity|]. split; [reflexivity|].
  split; [apply emit_spec|]. cbn [this trace].
  split; [rewrite invoked_run_handlers; reflexivity|].
  split; [reflexivity|].
  split; [apply emit_spec|]. cbn [this trace].
  split; [|reflexivity].
  rewrite !invoked_run_handlers. reflexivity.
Qed.

(** ** [fetch] in closed form *)

Section Fetch.

Variable behaviour : nat -> list event -> list value -> outcome.

Lemma emit_ok event args s :
  emit behaviour event args s = (Ok tt, after_emit behaviour event args s).
Proof. unfold after_emit. by rewrite emit_spec. Qed.

Lemma after_emit_this event args s :
  this (after_emit behaviour event args s)
  = set_onceListeners (once_left (this s) (String.append "on" event)) (this s).
Proof. unfold after_emit. by rewrite emit_spec. Qed.

Lemma after_emit_trace event args s :
  trace (after_emit behaviour event args s)
  = run_handlers behaviour args
      (default [] (listeners (this s) !! String.append "on" event)
       ++ once_called (this s) (String.append "on" event))
      (trace s).
Proof. unfold after_emit. by rewrite emit_spec. Qed.

Lemma call_condition_this s :
  this (snd (call_condition behaviour s)) = this s.
Proof.
  destruct s as [r t]. unfold call_condition, bind, gets. simpl.
  destruct (condition r) as [|[]]; try reflexivity.
  unfold call_function, bind, gets, log, modify. simpl.
  by destruct (behaviour f t []).
Qed.

Lemma call_condition_ext s s' :
  condition (this s) = condition (this s') -> trace s = trace s' ->
  fst (call_condition behaviour s) = fst (call_condition behaviour s')
  /\ trace (snd (call_condition behaviour s)) = trace (snd (call_condition behaviour s')).
Proof.
  destruct s as [r t], s' as [r' t']. simpl. intros Hc <-.
  unfold call_condition, bind, gets. simpl. rewrite <- Hc.
  destruct (condition r) as [|[]]; try done.
  unfold call_function, bind, gets, log, modify. simpl.
  by destruct (behaviour f t []).
Qed.

Lemma condition_passes_ext s s' :
  condition (this s) = condition (this s') -> trace s = trace s' ->
  condition_passes behaviour s -> condition_passes behaviour s'.
Proof.
  intros Hc Ht (c & Hr & Hv). exists c. split; [|done].
  by destruct (call_condition_ext s s' Hc Ht) as [<- _].
Qed.

Lemma fetch_begin_started s :
  condition_passes behaviour s -> fetch_begin behaviour s = (Ok true, suspended behaviour s).
Proof.
  intros (c & Hc & Ht). pose proof (call_condition_this s) as Hthis.
  unfold fetch_begin, bind, suspended.
  destruct (call_condition behaviour s) as [res s1]. simpl in *. subst res.
  rewrite Ht. simpl. by rewrite Hthis.
Qed.

Lemma fetch_begin_skipped s :
  condition_fails behaviour s ->
  fetch_begin behaviour s = (Ok false, snd (call_condition behaviour s)).
Proof.
  intros (c & Hc & Ht).
  unfold fetch_begin, bind.
  destruct (call_condition behaviour s) as [res s1]. simpl in *. subst res.
  by rewrite Ht.
Qed.

Lemma fetch_resume_resolved fetched now s :
  fetch_resume behaviour (Resolved fetched) now s
  = (Ok tt,
     settled_at now
       (after_emit behaviour "Success" [fetched_data (this s) fetched]
          (mkState (set_data (fetched_data (this s) fetched) (this s)) (trace s)))).
Proof.
  destruct s as [r t].
  unfold fetch_resume, fetched_data. unfold bind at 1. unfold try_catch.
  unfold bind at 1. simpl. unfold bind at 1, gets at 1. simpl.
  destruct (isArray fetched && truthy (paged r)); simpl;
    unfold bind at 1, assign at 1, modify at 1; simpl;
    unfold bind at 1, gets at 1; simpl; rewrite emit_ok; reflexivity.
Qed.

Lemma fetch_resume_rejected messages now s :
  fetch_resume behaviour (Rejected (Some messages)) now s
  = (Ok tt,
     settled_at now
       (after_emit behaviour "Error" [VStr (join LF messages)]
          (mkState (set_error (VStr (join LF messages)) (this s)) (trace s)))).
Proof.
  destruct s as [r t].
  unfold fetch_resume. unfold bind at 1. unfold try_catch.
  unfold bind at 1. simpl.
  unfold bind at 1. simpl. unfold bind at 1, assign at 1, modify at 1. simpl.
  rewrite emit_ok. reflexivity.
Qed.

(** A rejection without a message list escapes [fetch]: the resource
    stays as the first half of [fetch] left it. *)
Lemma fetch_resume_no_messages now s :
  fetch_resume behaviour (Rejected None) now s = (Raise TypeError, s).
Proof. by destruct s. Qed.

Lemma settled_fields now s :
  lastLoaded (this (settled_at now s)) = Some now
  /\ loading (this (settled_at now s)) = false
  /\ data (this (settled_at now s)) = data (this s)
  /\ error (this (settled_at now s)) = error (this s)
  /\ paged (this (settled_at now s)) = paged (this s)
  /\ condition (this (settled_at now s)) = condition (this s)
  /\ trace (settled_at now s) = trace s.
Proof. by destruct s as [[] ?]. Qed.

Lemma after_emit_fields event args s :
  data (this (after_emit behaviour event args s)) = data (this s)
  /\ error (this (after_emit behaviour event args s)) = error (this s)
  /\ paged (this (after_emit behaviour event args s)) = paged (this s)
  /\ condition (this (after_emit behaviour event args s)) = condition (this s)
  /\ loading (this (after_emit behaviour event args s)) = loading (this s)
  /\ listeners (this (after_emit behaviour event args s)) = listeners (this s).
Proof. rewrite after_emit_this. by destruct s as [[] ?]. Qed.

(** A fetch that passes its condition and whose call settles with data
    or with a message list returns normally and ends with [lastLoaded]
    set and [loading] false. *)
Lemma fetch_settles s settled now :
  condition_passes behaviour s -> settled <> Rejected None ->
  exists s', fetch behaviour settled now s = (Ok tt, s')
             /\ lastLoaded (this s') = Some now
             /\ loading (this s') = false.
Proof.
  intros Hc Hs. unfold fetch, bind.
  rewrite fetch_begin_started by done.
  destruct settled as [fetched|[messages|]]; [| |done].
  - rewrite fetch_resume_resolved. eexists. split; [reflexivity|].
    split; apply settled_fields.
  - rewrite fetch_resume_rejected. eexists. split; [reflexivity|].
    split; apply settled_fields.
Qed.

End Fetch.

(** ** The claims about [emit] and [fetch] *)

(** C3: [emit] never throws; the handlers it calls are fixed by the two
    tables, whatever each handler does; a handler that throws leaves its
    exception on the console right after its call; and a fetch that goes
    through still ends with [lastLoaded] set to the current time and
    [loading] false, whatever the handlers do. *)
Theorem handler_exceptions_are_isolated
    (behaviour : nat -> list event -> list value -> outcome)
    (event : string) (args : list value) (s : state)
    (settled : response) (now : Z) :
  let key := String.append "on" event in
  let called := default [] (listeners (this s) !! key) ++ once_called (this s) key in
  (exists s', emit behaviour event args s = (Ok tt, s')
              /\ trace s' = run_handlers behaviour args called (trace s)
              /\ invoked (trace s') = invoked (trace s) ++ functions called)
  /\ (forall f history e,
        behaviour f history args = Throws e ->
        handler_events behaviour args history (VFun f)
        = [EvInvoke f args; EvConsoleError (Thrown e)])
  /\ (condition_passes behaviour s -> settled <> Rejected None ->
      exists s', fetch behaviour settled now s = (Ok tt, s')
                 /\ lastLoaded (this s') = Some now
                 /\ loading (this s') = false).
Proof.
  intros key called. split; [|split].
  - eexists. split; [apply emit_spec|]. cbn [trace]. fold key. fold called.
    split; [done|]. apply invoked_run_handlers.
  - intros f history e He. simpl. by rewrite He.
  - apply fetch_settles.
Qed.

Lemma handler_exceptions_are_isolated_witness :
  exists s', fetch grumpy (Resolved (VArr [VNum 1])) 42 (mkState resource_b [])
             = (Ok tt, s')
             /\ lastLoaded (this s') = Some 42
             /\ loading (this s') = false.
Proof.
  destruct (handler_exceptions_are_isolated grumpy "Success" [] (mkState resource_b [])
              (Resolved (VArr [VNum 1])) 42) as (_ & _ & Hfetch).
  apply Hfetch.
  - exists (VBool true). split; reflexivity.
  - intros H. discriminate H.
Defined.

(** C4, as stated, fails: a paged resource holding [[1]] whose call
    returns an object that is not a sequence has its data replaced by
    that object. *)
Lemma paged_data_replaced_by_non_sequence :
  let r := set_data (VArr [VNum 1]) resource_b in
  let s' := snd (fetch quiet (Resolved (VObj [("x", VNum 2)])) 42 (mkState r [])) in
  truthy (paged r) = true
  /\ data r = VArr [VNum 1]
  /\ data (this s') = VObj [("x", VNum 2)].
Proof. vm_compute. repeat split; reflexivity. Qed.

(** C4, amended: for a paged resource, a successful fetch whose result is
    a sequence makes [data] the prior data followed by the result, a
    null prior data counting as the empty sequence; so two successful
    fetches in a row returning [[a]] and [[b]] leave [[a, b]].  (A result
    that is not a sequence replaces the data.) *)
Theorem paged_fetch_concatenates
    (behaviour : nat -> list event -> list value -> outcome)
    (r : Resource) (t : list event) (items : list value) (fetched a b : value)
    (now1 now2 : Z) :
  truthy (paged r) = true ->
  (condition_passes behaviour (mkState r t) ->
   (exists s', fetch behaviour (Resolved (VArr items)) now1 (mkState r t) = (Ok tt, s')
               /\ data (this s') = VArr (concat_arg (js_or (data r) (VArr [])) ++ items)
               /\ (data r = VNull -> data (this s') = VArr items)
               /\ (forall old, data r = VArr old -> data (this s') = VArr (old ++ items)))
   /\ (isArray fetched = false ->
       exists s', fetch behaviour (Resolved fetched) now1 (mkState r t) = (Ok tt, s')
                  /\ data (this s') = fetched))
  /\ ((forall t', condition_passes behaviour (mkState r t')) ->
      data r = VNull ->
      exists s2,
        (fetch behaviour (Resolved (VArr [a])) now1 ;;
         fetch behaviour (Resolved (VArr [b])) now2)%js (mkState r t) = (Ok tt, s2)
        /\ data (this s2) = VArr [a; b]).
Proof.
  intros Hpaged.
  assert (Hone : forall r0 t0 fetched0 now,
    condition_passes behaviour (mkState r0 t0) ->
    exists s', fetch behaviour (Resolved fetched0) now (mkState r0 t0) = (Ok tt, s')
               /\ data (this s') = fetched_data r0 fetched0
               /\ paged (this s') = paged r0
               /\ condition (this s') = condition r0).
  { intros r0 t0 fetched0 now Hc. unfold fetch, bind.
    rewrite fetch_begin_started by done. rewrite fetch_resume_resolved.
    eexists. split; [reflexivity|].
    match goal with |- context [settled_at now ?x] =>
      destruct (settled_fields now x) as (_ & _ & -> & _ & -> & -> & _) end.
    match goal with |- context [after_emit behaviour ?e ?a ?x] =>
      destruct (after_emit_fields behaviour e a x) as (-> & _ & -> & -> & _) end.
    by destruct r0. }
  split.
  - intros Hc. split.
    + destruct (Hone r t (VArr items) now1 Hc) as (s' & Hrun & Hdata & _).
      exists s'. split; [done|].
      unfold fetched_data in Hdata. simpl in Hdata. rewrite Hpaged in Hdata.
      split; [done|]. split.
      * intros Hnull. by rewrite Hdata, Hnull.
      * intros old Hold. by rewrite Hdata, Hold.
    + intros Hna.
      destruct (Hone r t fetched now1 Hc) as (s' & Hrun & Hdata & _).
      exists s'. split; [done|].
      unfold fetched_data in Hdata. by rewrite Hna in Hdata.
  - intros Hc Hnull.
    destruct (Hone r t (VArr [a]) now1 (Hc t)) as ([r1 t1] & Hrun1 & Hdata1 & Hp1 & Hc1).
    simpl in *.
    assert (Hc' : condition_passes behaviour (mkState r1 t1)).
    { apply (condition_passes_ext behaviour (mkState r t1)); [by simpl|done|apply Hc]. }
    destruct (Hone r1 t1 (VArr [b]) now2 Hc') as (s2 & Hrun2 & Hdata2 & _).
    exists s2. unfold bind at 1. rewrite Hrun1. split; [done|].
    rewrite Hdata2. unfold fetched_data. simpl. rewrite Hp1, Hpaged, Hdata1.
    unfold fetched_data. simpl. by rewrite Hpaged, Hnull.
Qed.

Lemma paged_fetch_concatenates_witness :
  exists s2,
    (fetch grumpy (Resolved (VArr [VStr "a"])) 41 ;;
     fetch grumpy (Resolved (VArr [VStr "b"])) 42)%js (mkState resource_b [])
    = (Ok tt, s2)
    /\ data (this s2) = VArr [VStr "a"; VStr "b"].
Proof.
  destruct (paged_fetch_concatenates grumpy resource_b [] [] VNull (VStr "a") (VStr "b")
              41 42 eq_refl) as [_ Htwo].
  apply Htwo; [|reflexivity].
  intros t'. exists (VBool true). split; reflexivity.
Defined.

(** C5: when the call rejects with a message list, [fetch] returns
    normally; it has set [error] to the messages joined by line feeds,
    emitted [Error] with that string, and then set [lastLoaded] and put
    [loading] back to false; [data] is as before. *)
Theorem fetch_failure_is_captured
    (behaviour : nat -> list event -> list value -> outcome)
    (s : state) (messages : list string) (now : Z) :
  condition_passes behaviour s ->
  let message := VStr (join LF messages) in
  let caught := mkState (set_error message (this (suspended behaviour s)))
                        (trace (suspended behaviour s)) in
  exists s',
    fetch behaviour (Rejected (Some messages)) now s = (Ok tt, s')
    /\ emit behaviour "Error" [message] caught
       = (Ok tt, after_emit behaviour "Error" [message] caught)
    /\ s' = settled_at now (after_emit behaviour "Error" [message] caught)
    /\ error (this s') = message
    /\ lastLoaded (this s') = Some now
    /\ loading (this s') = false
    /\ data (this s') = data (this s)
    /\ invoked (trace s')
       = invoked (trace (suspended behaviour s))
         ++ functions (default [] (listeners (this s) !! "onError")
                       ++ once_called (this s) "onError").
Proof.
  intros Hc message caught.
  eexists. split.
  { unfold fetch, bind. rewrite fetch_begin_started by done.
    rewrite fetch_resume_rejected. reflexivity. }
  fold message. fold caught.
  split; [apply emit_ok|]. split; [done|].
  destruct (settled_fields now (after_emit behaviour "Error" [message] caught))
    as (-> & -> & -> & -> & _ & _ & ->).
  destruct (after_emit_fields behaviour "Error" [message] caught)
    as (-> & -> & _).
  rewrite after_emit_trace, invoked_run_handlers.
  destruct s as [[] t]. done.
Qed.

Lemma fetch_failure_is_captured_witness :
  exists s',
    fetch grumpy (Rejected (Some ["not found"; "try again"])) 42 (mkState resource_b [])
    = (Ok tt, s')
    /\ error (this s') = VStr (join LF ["not found"; "try again"])
    /\ lastLoaded (this s') = Some 42
    /\ loading (this s') = false
    /\ invoked (trace s') = [1; 3]%nat.
Proof.
  assert (Hc : condition_passes grumpy (mkState resource_b [])).
  { exists (VBool true). split; reflexivity. }
  destruct (fetch_failure_is_captured grumpy (mkState resource_b [])
              ["not found"; "try again"] 42 Hc)
    as (s' & Hrun & _ & _ & Herr & Hlast & Hload & _ & Hinv).
  exists s'. repeat split; assumption.
Defined.

(** C6: when [condition()] evaluates to a falsy value, [fetch] returns at
    once and the resource is left as it was: [data], [error], [loading]
    and [lastLoaded] are unchanged and the call is not issued.  When the
    condition passes and the call settles with data or with a message
    list, [lastLoaded] is set. *)
Theorem condition_skip_changes_nothing
    (behaviour : nat -> list event -> list value -> outcome)
    (s : state) (settled : response) (now : Z) :
  (condition_fails behaviour s ->
   exists s', fetch behaviour settled now s = (Ok tt, s')
              /\ this s' = this s
              /\ data (this s') = data (this s)
              /\ error (this s') = error (this s)
              /\ loading (this s') = loading (this s)
              /\ lastLoaded (this s') = lastLoaded (this s)
              /\ s' = snd (call_condition behaviour s))
  /\ (condition_passes behaviour s -> settled <> Rejected None ->
      exists s', fetch behaviour settled now s = (Ok tt, s')
                 /\ lastLoaded (this s') = Some now).
Proof.
  split.
  - intros Hc. exists (snd (call_condition behaviour s)).
    unfold fetch, bind. rewrite fetch_begin_skipped by done.
    rewrite call_condition_this. done.
  - intros Hc Hs. destruct (fetch_settles behaviour s settled now Hc Hs)
      as (s' & Hrun & Hlast & _).
    by exists s'.
Qed.

Lemma condition_skip_changes_nothing_witness :
  let r := set_condition (CondValue (VFun 6)) resource_a in
  (exists s', fetch refusing (Resolved (VNum 5)) 42 (mkState r []) = (Ok tt, s')
              /\ this s' = r)
  /\ (exists s', fetch refusing (Rejected (Some ["no"])) 42 (mkState resource_a [])
                 = (Ok tt, s')
                 /\ lastLoaded (this s') = Some 42).
Proof.
  intros r. split.
  - destruct (condition_skip_changes_nothing refusing (mkState r []) (Resolved (VNum 5)) 42)
      as [Hskip _].
    destruct Hskip as (s' & Hrun & Hthis & _).
    + exists (VBool false). split; reflexivity.
    + exists s'. split; [exact Hrun|exact Hthis].
  - destruct (condition_skip_changes_nothing refusing (mkState resource_a [])
                (Rejected (Some ["no"])) 42) as [_ Hset].
    apply Hset.
    + exists (VBool true). split; reflexivity.
    + intros H. discriminate H.
Defined.

(** ** [updateResource] *)

Lemma on_resource_run {A} key (m : M state A) g r :
  resources g !! key = Some r ->
  on_resource key m g
  = (fst (m (mkState r (world g))),
     mkManager (<[key := this (snd (m (mkState r (world g))))]> (resources g))
               (trace (snd (m (mkState r (world g)))))).
Proof.
  intros Hr. unfold on_resource. rewrite Hr.
  by destruct (m (mkState r (world g))).
Qed.

Section UpdateResource.

Variable behaviour : nat -> list event -> list value -> outcome.

Lemma fetch_begin_this s :
  this (snd (fetch_begin behaviour s)) = this s
  \/ this (snd (fetch_begin behaviour s)) = set_loading true (this s).
Proof.
  pose proof (call_condition_this behaviour s) as Hthis.
  unfold fetch_begin, bind.
  destruct (call_condition behaviour s) as [[c|e] s1]; simpl in *.
  - destruct (truthy c); simpl; [right|left]; congruence.
  - by left.
Qed.

Lemma call_condition_trace s :
  exists later, trace (snd (call_condition behaviour s)) = trace s ++ later.
Proof.
  destruct s as [r w]. unfold call_condition, bind, gets. simpl.
  destruct (condition r) as [|[]];
    try (exists []; simpl; by rewrite app_nil_r).
  unfold call_function, bind, gets, log, modify. simpl.
  exists [EvInvoke f []]. by destruct (behaviour f w []).
Qed.

Lemma reloaded_trace r w :
  exists later, trace (reloaded behaviour r w) = w ++ later.
Proof.
  unfold reloaded. destruct (truthy (auto r)); [|exists []; simpl; by rewrite app_nil_r].
  destruct (call_condition_trace (mkState r w)) as [later Hlater].
  unfold fetch_begin, bind.
  destruct (call_condition behaviour (mkState r w)) as [[c|e] s1]; simpl in *.
  - destruct (truthy c); simpl.
    + exists (later ++ [EvCall (method (this s1)) (params (this s1))]).
      by rewrite Hlater, app_assoc.
    + by exists later.
  - by exists later.
Qed.

Lemma reloaded_fields r w :
  data (this (reloaded behaviour r w)) = data r
  /\ params (this (reloaded behaviour r w)) = params r
  /\ method (this (reloaded behaviour r w)) = method r
  /\ keepData (this (reloaded behaviour r w)) = keepData r
  /\ auto (this (reloaded behaviour r w)) = auto r.
Proof.
  unfold reloaded. destruct (truthy (auto r)); [|done].
  destruct (fetch_begin_this (mkState r w)) as [-> | ->]; by destruct r.
Qed.

(** The tail of [updateResource], from the snapshot of [data] on, for a
    resource [r] found under [key]. *)
Lemma updateResource_reuse key newValue oldValue g r :
  resources g !! key = Some r ->
  let o := normalize newValue in
  let w := world g ++ (if from_option truthy_def false oldValue then [EvCancel] else []) in
  updateResource behaviour key newValue oldValue g
  = if method_conflict r o
    then (Raise (JsError method_cannot_change), mkManager (<[key := r]> (resources g)) w)
    else (Ok tt,
          mkManager (<[key := this (reloaded behaviour (reconfigured o (data r) r) w)]> (resources g))
                    (trace (reloaded behaviour (reconfigured o (data r) r) w))).
Proof.
  intros Hr o w.
  set (g1 := mkManager (<[key := r]> (resources g)) (world g)).
  assert (Hg1 : resources g1 !! key = Some r) by apply lookup_insert_eq.
  replace (updateResource behaviour key newValue oldValue g)
    with (updateResource behaviour key newValue oldValue g1)
    by (f_equal; unfold g1; destruct g; simpl in *; by rewrite insert_id).
  unfold updateResource.
  unfold bind at 1, gets at 1. cbv beta. rewrite Hg1.
  rewrite bool_decide_eq_true_2 by by eexists. cbn [orb].
  unfold bind at 1. unfold ret at 1.
  unfold bind at 1, gets at 1. cbv beta. rewrite Hg1. cbn [from_option].
  unfold bind at 1.
  assert (Hcancel :
    (if from_option truthy_def false oldValue
     then on_resource key cancel else ret tt) g1
    = (Ok tt, mkManager (<[key := r]> (resources g)) w)).
  { unfold w. destruct (from_option truthy_def false oldValue).
    - rewrite (on_resource_run key _ g1 r Hg1). simpl.
      by rewrite insert_insert_eq.
    - unfold ret, g1. by rewrite app_nil_r. }
  rewrite Hcancel. clear Hcancel.
  set (g2 := mkManager (<[key := r]> (resources g)) w).
  assert (Hg2 : resources g2 !! key = Some r) by apply lookup_insert_eq.
  unfold bind at 1. rewrite (on_resource_run key _ g2 r Hg2).
  destruct (method_conflict r o) eqn:Hc.
  - rewrite update_throws by done. simpl. by rewrite insert_insert_eq.
  - rewrite update_ok by done. simpl. fold o. rewrite insert_insert_eq.
    set (r1 := updated o VUndefined r).
    set (g3 := mkManager (<[key := r1]> (resources g)) w).
    assert (Hg3 : resources g3 !! key = Some r1) by apply lookup_insert_eq.
    unfold bind at 1. rewrite (on_resource_run key _ g3 r1 Hg3). simpl.
    rewrite insert_insert_eq. fold g3.
    change (js_or (get o "keepData") (VBool false)) with (keepData r1).
    unfold bind at 1.
    assert (Hkeep :
      (if truthy (keepData r1)
       then on_resource key (assign (set_data (data r))) else ret tt) g3
      = (Ok tt, mkManager (<[key := reconfigured o (data r) r]> (resources g)) w)).
    { unfold reconfigured. fold r1. destruct (truthy (keepData r1)).
      - rewrite (on_resource_run key _ g3 r1 Hg3). simpl.
        by rewrite insert_insert_eq.
      - done. }
    rewrite Hkeep. clear Hkeep.
    set (r2 := reconfigured o (data r) r).
    set (g4 := mkManager (<[key := r2]> (resources g)) w).
    assert (Hg4 : resources g4 !! key = Some r2) by apply lookup_insert_eq.
    unfold bind at 1. rewrite (on_resource_run key _ g4 r2 Hg4). simpl.
    rewrite insert_insert_eq. fold g4.
    unfold reloaded. destruct (truthy (auto r2)).
    + unfold unawaited. rewrite (on_resource_run key _ g4 r2 Hg4). simpl.
      by rewrite insert_insert_eq.
    + done.
Qed.

Lemma new_Resource_ok newValue g :
  truthy (get (normalize newValue) "method") = true ->
  new_Resource newValue VUndefined g = (Ok (constructed (normalize newValue)), g).
Proof.
  intros Hm. unfold new_Resource. rewrite constructor_ok by done. simpl.
  by destruct g.
Qed.

Lemma new_Resource_throws newValue g :
  truthy (get (normalize newValue) "method") = false ->
  new_Resource newValue VUndefined g = (Raise (JsError method_required), g).
Proof.
  intros Hm. unfold new_Resource. rewrite constructor_throws by done. simpl.
  by destruct g.
Qed.

Lemma method_conflict_constructed o : method_conflict (constructed o) o = false.
Proof.
  unfold method_conflict. simpl. by rewrite strict_eq_refl, andb_false_r.
Qed.

Lemma updateResource_fresh key newValue oldValue g :
  resources g !! key = None ->
  inherited key = false ->
  let o := normalize newValue in
  let w := world g ++ (if from_option truthy_def false oldValue then [EvCancel] else []) in
  updateResource behaviour key newValue oldValue g
  = if truthy (get o "method")
    then (Ok tt,
          mkManager
            (<[key := this (reloaded behaviour (reconfigured o (data (constructed o)) (constructed o)) w)]>
               (resources g))
            (trace (reloaded behaviour (reconfigured o (data (constructed o)) (constructed o)) w)))
    else (Raise (JsError method_required), g).
Proof.
  intros Hr Hin o w.
  destruct (truthy (get o "method")) eqn:Hm.
  - set (g1 := mkManager (<[key := constructed o]> (resources g)) (world g)).
    assert (Hg1 : resources g1 !! key = Some (constructed o)) by apply lookup_insert_eq.
    assert (Hsame : updateResource behaviour key newValue oldValue g
                    = updateResource behaviour key newValue oldValue g1).
    { unfold updateResource.
      unfold bind at 1, gets at 1. cbv beta. rewrite Hr, Hin.
      rewrite bool_decide_eq_false_2 by (by intros [? ?]). cbn [orb].
      unfold bind at 1. unfold bind at 1. rewrite new_Resource_ok by done.
      unfold modify at 1. fold o. fold g1.
      symmetry. unfold bind at 1, gets at 1. cbv beta. rewrite Hg1.
      rewrite bool_decide_eq_true_2 by by eexists. cbn [orb].
      unfold bind at 1. unfold ret at 1. reflexivity. }
    rewrite Hsame, (updateResource_reuse key newValue oldValue g1 _ Hg1).
    fold o. rewrite method_conflict_constructed. simpl.
    fold w. by rewrite insert_insert_eq.
  - unfold updateResource.
    unfold bind at 1, gets at 1. cbv beta. rewrite Hr, Hin.
    rewrite bool_decide_eq_false_2 by (by intros [? ?]). cbn [orb].
    unfold bind at 1. unfold bind at 1. by rewrite new_Resource_throws.
Qed.

(** A free key that names an inherited property of the plain object:
    [key in this.resources] holds, what is found is no resource, and
    the first method called on it fails. *)
Lemma updateResource_inherited key newValue oldValue g :
  resources g !! key = None ->
  inherited key = true ->
  updateResource behaviour key newValue oldValue g = (Raise TypeError, g).
Proof.
  intros Hr Hin. unfold updateResource.
  unfold bind at 1, gets at 1. cbv beta. rewrite Hr, Hin, orb_true_r.
  unfold bind at 1. unfold ret at 1.
  unfold bind at 1, gets at 1. cbv beta. rewrite Hr. cbn [from_option].
  unfold bind at 1. unfold on_resource.
  destruct (from_option truthy_def false oldValue).
  - by rewrite Hr.
  - unfold ret at 1. unfold bind at 1. by rewrite Hr.
Qed.

End UpdateResource.

(** C9 fails on the code for a key that no resource was stored under but
    that names a property every plain object inherits, such as
    [toString]: [key in this.resources] holds, the branch that
    constructs and registers a resource is not taken, and the first
    method called on the built-in found there ([cancel] when an old
    value is present, [update] otherwise) is a [TypeError]; nothing is
    registered and nothing else has happened. *)
Theorem updateResource_inherited_key_throws
    (behaviour : nat -> list event -> list value -> outcome)
    (key : string) (newValue : definition) (oldValue : option definition)
    (g : manager) :
  resources g !! key = None ->
  inherited key = true ->
  updateResource behaviour key newValue oldValue g = (Raise TypeError, g)
  /\ resources (snd (updateResource behaviour key newValue oldValue g)) !! key = None.
Proof.
  intros Hr Hin. rewrite updateResource_inherited by done. by split.
Qed.

Lemma updateResource_inherited_key_throws_witness :
  updateResource quiet "toString" (DefString "list_items") None (mkManager ∅ [])
  = (Raise TypeError, mkManager ∅ [])
  /\ fst (updateResource quiet "plans" (DefString "list_items") None (mkManager ∅ []))
     = Ok tt.
Proof.
  split; [|reflexivity].
  apply (updateResource_inherited_key_throws quiet "toString" (DefString "list_items")
           None (mkManager ∅ [])); reflexivity.
Defined.

(** X26: for a key that holds a resource, or that is free and does not
    name an inherited property of a plain object, [updateResource]
    works on the resource found under the key, or on one it constructs
    from the new value and registers when there is none (a new value
    without a method makes the constructor throw and registers
    nothing).  [cancel()] is called first when an old value was
    present; [update] runs next; the data read before [update] is put
    back when the [keepData] flag of the updated resource is set,
    otherwise the data is what [update] reset it to; and [reload()] is
    started when the [auto] flag is set, which issues the call when the
    condition passes.  Resources under other keys are not touched. *)
Theorem updateResource_policy
    (behaviour : nat -> list event -> list value -> outcome)
    (key : string) (newValue : definition) (oldValue : option definition)
    (g : manager) :
  let o := normalize newValue in
  let w := world g ++ (if from_option truthy_def false oldValue then [EvCancel] else []) in
  let resource :=
    match resources g !! key with
    | Some r => r
    | None => constructed o
    end in
  let r2 := reconfigured o (data resource) resource in
  (resources g !! key = None -> inherited key = false) ->
  (resources g !! key = None -> truthy (get o "method") = false ->
   updateResource behaviour key newValue oldValue g
   = (Raise (JsError method_required), g))
  /\ (method_conflict resource o = false ->
      (resources g !! key = None -> truthy (get o "method") = true) ->
      exists g',
        updateResource behaviour key newValue oldValue g = (Ok tt, g')
        /\ (forall k, k <> key -> resources g' !! k = resources g !! k)
        /\ (exists later, world g' = w ++ later)
        /\ (exists r', resources g' !! key = Some r'
              /\ method r' = method resource
              /\ params r' = js_or (get o "params") VNull
              /\ keepData r' = js_or (get o "keepData") (VBool false)
              /\ auto r' = js_or (get o "auto") (VBool false)
              /\ (truthy (keepData r') = true -> data r' = data resource)
              /\ (truthy (keepData r') = false -> data r' = js_or (get o "default") VNull)
              /\ (truthy (auto r') = false -> r' = r2 /\ world g' = w)
              /\ (truthy (auto r') = true ->
                  condition_passes behaviour (mkState r2 w) ->
                  r' = set_loading true r2
                  /\ world g'
                     = trace (snd (call_condition behaviour (mkState r2 w)))
                       ++ [EvCall (method resource) (params r')]))).
Proof.
  intros o w resource r2 Hkey. split.
  - intros Hr Hm.
    rewrite (updateResource_fresh behaviour key newValue oldValue g Hr (Hkey Hr)).
    fold o. by rewrite Hm.
  - intros Hc Hm.
    assert (Hrun : updateResource behaviour key newValue oldValue g
                   = (Ok tt, mkManager (<[key := this (reloaded behaviour r2 w)]> (resources g))
                                       (trace (reloaded behaviour r2 w)))).
    { unfold r2, resource in *. destruct (resources g !! key) as [r|] eqn:Hr.
      - rewrite (updateResource_reuse behaviour key newValue oldValue g r Hr).
        fold o. by rewrite Hc.
      - rewrite (updateResource_fresh behaviour key newValue oldValue g Hr (Hkey eq_refl)).
        fold o. by rewrite Hm. }
    eexists. split; [exact Hrun|]. simpl. split.
    { intros k Hk. by rewrite lookup_insert_ne. }
    split; [apply reloaded_trace|].
    eexists. split; [apply lookup_insert_eq|].
    destruct (reloaded_fields behaviour r2 w) as (Hd & Hp & Hmeth & Hk & Ha).
    rewrite Hd, Hp, Hmeth, Hk, Ha.
    assert (Hr2 : method r2 = method resource
                  /\ params r2 = js_or (get o "params") VNull
                  /\ keepData r2 = js_or (get o "keepData") (VBool false)
                  /\ auto r2 = js_or (get o "auto") (VBool false)).
    { unfold r2, reconfigured. simpl.
      by destruct (truthy (js_or (get o "keepData") (VBool false))). }
    destruct Hr2 as (Hm2 & Hp2 & Hk2 & Ha2).
    split; [done|]. split; [done|]. split; [done|]. split; [done|].
    split; [|split; [|split]].
    + intros Hkeep. unfold r2, reconfigured in *. simpl in *.
      by rewrite Hk2 in *; rewrite Hkeep.
    + intros Hkeep. unfold r2, reconfigured in *. simpl in *.
      by rewrite Hk2 in *; rewrite Hkeep.
    + intros Hauto. unfold reloaded. by rewrite Hauto.
    + intros Hauto Hcond. unfold reloaded. rewrite Hauto.
      rewrite fetch_begin_started by done. simpl.
      by rewrite Hm2.
Qed.

Lemma updateResource_policy_witness :
  let g := mkManager {[ "search" := resource_x ]} [] in
  let newValue :=
    DefConfig [("method", VStr "search"); ("params", VObj [("q", VStr "new")]);
               ("keepData", VBool true)] in
  let oldValue :=
    DefConfig [("method", VStr "search"); ("params", VObj [("q", VStr "old")]);
               ("keepData", VBool true)] in
  exists g' r',
    updateResource quiet "search" newValue (Some oldValue) g = (Ok tt, g')
    /\ resources g' !! "search" = Some r'
    /\ data r' = VObj [("x", VNum 1)]
    /\ params r' = VObj [("q", VStr "new")]
    /\ world g' = [EvCancel].
Proof.
  intros g newValue oldValue.
  destruct (updateResource_policy quiet "search" newValue (Some oldValue) g) as [_ H];
    [intros H; discriminate H|].
  destruct H as (g' & Hrun & Hothers & Hlater & r' & Hlook & Hmeth & Hp & Hk & Ha
                 & Hkeep & Hreset & Hquiet & Hauto).
  - reflexivity.
  - intros _. reflexivity.
  - exists g', r'. split; [exact Hrun|]. split; [exact Hlook|].
    split; [|split; [exact Hp|]].
    + rewrite Hkeep; [reflexivity|]. rewrite Hk. reflexivity.
    + apply Hquiet. rewrite Ha. reflexivity.
Defined.

(** * Further properties of the code *)

(** ** [emit] *)


Lemma console_errors_app t1 t2 :
  console_errors (t1 ++ t2) = console_errors t1 ++ console_errors t2.
Proof. unfold console_errors. apply omap_app. Qed.

Lemma calls_app t1 t2 : calls (t1 ++ t2) = calls t1 ++ calls t2.
Proof. unfold calls. apply omap_app. Qed.


Lemma calls_run_handlers behaviour args handlers t :
  calls (run_handlers behaviour args handlers t) = calls t.
Proof.
  revert t. induction handlers as [|h handlers IH]; intros t; simpl; [done|].
  rewrite IH, calls_app.
  destruct h; simpl; try by rewrite app_nil_r.
  - destruct (get fields "call"); simpl; try by rewrite app_nil_r.
    destruct (behaviour f t (VObj fields :: args)); simpl; by rewrite app_nil_r.
  - destruct (behaviour f t args); simpl; by rewrite app_nil_r.
Qed.

Lemma indexOf_found arr h :
  h ∈ arr -> exists i, indexOf arr h = Z.of_nat i /\ arr !! i = Some h.
Proof.
  induction arr as [|y arr IH]; intros Hin; [by apply elem_of_nil in Hin|].
  simpl. unfold strict_eq at 1.
  destruct (decide (y = h)) as [->|Hne].
  - rewrite bool_decide_eq_true_2 by done. by exists 0%nat.
  - rewrite bool_decide_eq_false_2 by done.
    apply elem_of_cons in Hin as [Heq|Hin]; [congruence|].
    destruct (IH Hin) as (i & Hi & Hl). rewrite Hi.
    destruct (Z.ltb_spec (Z.of_nat i) 0); [lia|].
    exists (S i). split; [lia|done].
Qed.

Lemma splice1_indexOf_Permutation arr h :
  h ∈ arr -> arr ≡ₚ h :: splice1 arr (indexOf arr h).
Proof.
  intros Hin. destruct (indexOf_found arr h Hin) as (i & Hi & Hl).
  rewrite Hi. unfold splice1.
  destruct (Z.ltb_spec (Z.of_nat i) 0); [lia|].
  apply lookup_lt_Some in Hl as Hlt.
  replace (Z.to_nat (Z.min (Z.of_nat i) (Z.of_nat (length arr)))) with i by lia.
  by apply delete_Permutation.
Qed.

Lemma once_rounds_Permutation rounds : forall k arr,
  fst (once_rounds rounds k arr) ++ snd (once_rounds rounds k arr) ≡ₚ arr.
Proof.
  induction rounds as [|rounds IH]; intros k arr; simpl; [done|].
  destruct (arr !! k) as [h|] eqn:Hk; [|apply IH].
  specialize (IH (S k) (splice1 arr (indexOf arr h))).
  destruct (once_rounds rounds (S k) (splice1 arr (indexOf arr h))) as [called remaining].
  simpl in *. rewrite IH. symmetry. apply splice1_indexOf_Permutation.
  by apply list_elem_of_lookup_2 in Hk.
Qed.

Lemma once_rounds_left_length rounds : forall k arr,
  (k <= length arr)%nat -> (length arr - k <= rounds)%nat ->
  length (snd (once_rounds rounds k arr)) = (k + (length arr - k) / 2)%nat.
Proof.
  induction rounds as [|rounds IH]; intros k arr Hk Hr.
  - simpl. replace (length arr - k)%nat with 0%nat by lia. simpl. lia.
  - cbn [once_rounds]. destruct (arr !! k) as [h|] eqn:Hlook.
    + apply lookup_lt_Some in Hlook as Hlt.
      assert (Hlen : length (splice1 arr (indexOf arr h)) = (length arr - 1)%nat).
      { pose proof (splice1_indexOf_Permutation arr h) as Hp.
        apply Permutation_length in Hp; [simpl in Hp; lia|].
        by apply list_elem_of_lookup_2 in Hlook. }
      destruct (decide (S k <= length arr - 1)%nat) as [Hle|Hgt].
      * specialize (IH (S k) (splice1 arr (indexOf arr h))).
        destruct (once_rounds rounds (S k) (splice1 arr (indexOf arr h)))
          as [called remaining].
        cbn [fst snd] in *. rewrite IH by lia. rewrite Hlen.
        replace (length arr - k)%nat with (1 * 2 + (length arr - 1 - S k))%nat by lia.
        rewrite Nat.div_add_l by lia. lia.
      * rewrite once_rounds_past_end by lia. cbn [fst snd]. rewrite Hlen.
        replace (length arr - k)%nat with 1%nat by lia. cbn. lia.
    + apply lookup_ge_None in Hlook.
      rewrite once_rounds_past_end by lia. cbn [fst snd].
      replace (length arr - k)%nat with 0%nat by lia. cbn. lia.
Qed.

(** X1: an emit for an event under whose key neither table holds a
    handler does nothing at all. *)
Theorem emit_without_handlers_is_silent
    (behaviour : nat -> list event -> list value -> outcome)
    (event : string) (args : list value) (s : state) :
  default [] (listeners (this s) !! String.append "on" event) = [] ->
  default [] (onceListeners (this s) !! String.append "on" event) = [] ->
  emit behaviour event args s = (Ok tt, s).
Proof.
  intros Hon Honce. rewrite emit_spec. cbn zeta.
  unfold once_called, once_left. rewrite Hon.
  destruct s as [r t]. simpl in *.
  destruct (onceListeners r !! String.append "on" event) as [arr|] eqn:Harr;
    simpl in *.
  - subst arr. simpl. rewrite insert_id by done.
    by rewrite set_onceListeners_same.
  - by rewrite set_onceListeners_same.
Qed.

Lemma emit_without_handlers_is_silent_witness :
  emit grumpy "Error" [VStr "x"] (mkState resource_a []) = (Ok tt, mkState resource_a []).
Proof.
  apply emit_without_handlers_is_silent; reflexivity.
Defined.

(** X2: the code of [emit] itself writes to nothing of the resource but
    the one-shot list of its own key.  With handlers that do not modify
    the resource on their own (as all handlers of this model), the
    persistent table, the one-shot lists of the other keys and every
    other field are after an emit what they were before, whether the
    handlers return or throw. *)
Theorem emit_touches_only_its_once_list
    (behaviour : nat -> list event -> list value -> outcome)
    (event : string) (args : list value) (s : state) :
  let s' := snd (emit behaviour event args s) in
  listeners (this s') = listeners (this s)
  /\ (forall other, other <> String.append "on" event ->
        onceListeners (this s') !! other = onceListeners (this s) !! other)
  /\ set_onceListeners (onceListeners (this s)) (this s') = this s.
Proof.
  rewrite emit_spec. cbn zeta. simpl.
  destruct s as [r t]. simpl. split; [by destruct r|]. split.
  - intros other Hne. destruct r. simpl. unfold once_left. simpl.
    destruct (onceListeners0 !! String.append "on" event); [|done].
    by rewrite lookup_insert_ne.
  - by destruct r.
Qed.

Lemma emit_touches_only_its_once_list_witness :
  let s := mkState (set_onceListeners {[ "onGo" := [VFun 1]; "onStop" := [VFun 2] ]}
                      resource_b) [] in
  listeners (this (snd (emit grumpy "Go" [] s))) = listeners resource_b
  /\ onceListeners (this (snd (emit grumpy "Go" [] s))) !! "onStop" = Some [VFun 2].
Proof.
  intros s.
  destruct (emit_touches_only_its_once_list grumpy "Go" [] s) as (Hl & Hother & _).
  split; [exact Hl|].
  rewrite (Hother "onStop"); [reflexivity|]. intros H. discriminate H.
Defined.

(** X3: an emit never loses a one-shot handler.  The handlers it calls
    and the handlers it leaves registered are together exactly those
    that were registered, and of [n] registered handlers it leaves
    [n / 2] (rounded down). *)
Theorem emit_once_conservation
    (behaviour : nat -> list event -> list value -> outcome)
    (event : string) (args : list value) (s : state) (arr : list value) :
  onceListeners (this s) !! String.append "on" event = Some arr ->
  exists called remaining s',
    emit behaviour event args s = (Ok tt, s')
    /\ invoked (trace s')
       = invoked (trace s)
         ++ functions (default [] (listeners (this s) !! String.append "on" event))
         ++ functions called
    /\ onceListeners (this s') !! String.append "on" event = Some remaining
    /\ called ++ remaining ≡ₚ arr
    /\ length remaining = (length arr / 2)%nat.
Proof.
  intros Harr.
  exists (fst (once_rounds (length arr) 0 arr)), (snd (once_rounds (length arr) 0 arr)).
  eexists. split; [apply emit_spec|]. cbn [this trace].
  unfold once_called, once_left. rewrite Harr.
  split; [by rewrite invoked_run_handlers, functions_app|].
  split; [destruct s as [[] ?]; simpl; apply lookup_insert_eq|].
  split; [apply once_rounds_Permutation|].
  rewrite once_rounds_left_length by lia. simpl. by rewrite Nat.sub_0_r.
Qed.

Lemma emit_once_conservation_witness :
  exists called remaining s',
    emit quiet "Go" []
      (mkState (set_onceListeners {[ "onGo" := [VFun 1; VFun 1; VFun 2] ]} blank) [])
    = (Ok tt, s')
    /\ called ++ remaining ≡ₚ [VFun 1; VFun 1; VFun 2]
    /\ length remaining = 1%nat.
Proof.
  assert (Harr : onceListeners (set_onceListeners {[ "onGo" := [VFun 1; VFun 1; VFun 2] ]} blank)
                 !! String.append "on" "Go" = Some [VFun 1; VFun 1; VFun 2])
    by reflexivity.
  destruct (emit_once_conservation quiet "Go" []
              (mkState (set_onceListeners {[ "onGo" := [VFun 1; VFun 1; VFun 2] ]} blank) [])
              [VFun 1; VFun 1; VFun 2] Harr)
    as (called & remaining & s' & Hrun & _ & _ & Hperm & Hlen).
  exists called, remaining, s'. split; [exact Hrun|]. split; [exact Hperm|exact Hlen].
Defined.

(** X4: when no handler is registered twice in the one-shot list of an
    event, an emit calls the handlers at the even positions of the list
    (the first, the third, ...) in order and leaves those at the odd
    positions registered, in order. *)
Theorem emit_once_calls_every_other
    (behaviour : nat -> list event -> list value -> outcome)
    (event : string) (args : list value) (s : state) (arr : list value) :
  onceListeners (this s) !! String.append "on" event = Some arr ->
  NoDup arr ->
  exists s',
    emit behaviour event args s = (Ok tt, s')
    /\ invoked (trace s')
       = invoked (trace s)
         ++ functions (default [] (listeners (this s) !! String.append "on" event))
         ++ functions (fst (every_other arr))
    /\ onceListeners (this s') !! String.append "on" event = Some (snd (every_other arr)).
Proof.
  intros Harr Hnd.
  destruct (once_called_every_other (this s) _ arr Harr Hnd) as [Hcalled Hleft].
  eexists. split; [apply emit_spec|]. cbn [this trace].
  rewrite Hcalled, Hleft.
  split; [by rewrite invoked_run_handlers, functions_app|].
  destruct s as [[] ?]; simpl; apply lookup_insert_eq.
Qed.

Lemma emit_once_calls_every_other_witness :
  exists s',
    emit quiet "Go" []
      (mkState (set_onceListeners {[ "onGo" := [VFun 1; VFun 2; VFun 3; VFun 4; VFun 5] ]}
                  blank) [])
    = (Ok tt, s')
    /\ invoked (trace s') = [1; 3; 5]%nat
    /\ onceListeners (this s') !! "onGo" = Some [VFun 2; VFun 4].
Proof.
  assert (Harr : onceListeners
                   (set_onceListeners {[ "onGo" := [VFun 1; VFun 2; VFun 3; VFun 4; VFun 5] ]}
                      blank)
                 !! String.append "on" "Go" = Some [VFun 1; VFun 2; VFun 3; VFun 4; VFun 5])
    by reflexivity.
  apply (emit_once_calls_every_other quiet "Go" []
           (mkState (set_onceListeners {[ "onGo" := [VFun 1; VFun 2; VFun 3; VFun 4; VFun 5] ]}
                       blank) [])
           [VFun 1; VFun 2; VFun 3; VFun 4; VFun 5] Harr).
  repeat (apply NoDup_cons_2;
          [intros H; repeat (apply elem_of_cons in H as [H|H]; [discriminate H|]);
           by apply elem_of_nil in H|]).
  apply NoDup_nil_2.
Defined.

Lemma type_errors_app t1 t2 : type_errors (t1 ++ t2) = (type_errors t1 + type_errors t2)%nat.
Proof. unfold type_errors. by rewrite List.filter_app, length_app. Qed.

Lemma type_errors_run_handlers behaviour args handlers t :
  type_errors (run_handlers behaviour args handlers t)
  = (type_errors t + length (not_callable handlers))%nat.
Proof.
  revert t. induction handlers as [|h handlers IH]; intros t; simpl; [lia|].
  rewrite IH, type_errors_app.
  destruct h; simpl; try (unfold type_errors; simpl; lia).
  - destruct (get fields "call"); simpl; try (unfold type_errors; simpl; lia).
    destruct (behaviour f t (VObj fields :: args)); unfold type_errors; simpl; lia.
  - destruct (behaviour f t args); unfold type_errors; simpl; lia.
Qed.

(** X5: an entry of a handler list on which [handler.call(...)] fails,
    that is an entry that is neither a function nor an object with a
    function as its own [call] property (a config that gives [null] or
    a number under an [on...] key), does not break the emit: each such
    entry among the handlers of the round costs exactly one [TypeError]
    on the console, and the functions are still called. *)
Theorem emit_logs_non_callable_handlers
    (behaviour : nat -> list event -> list value -> outcome)
    (event : string) (args : list value) (s : state) :
  let key := String.append "on" event in
  let round := default [] (listeners (this s) !! key) ++ once_called (this s) key in
  exists s',
    emit behaviour event args s = (Ok tt, s')
    /\ type_errors (trace s') = (type_errors (trace s) + length (not_callable round))%nat
    /\ invoked (trace s') = invoked (trace s) ++ functions round.
Proof.
  intros key round. eexists. split; [apply emit_spec|]. cbn [this trace].
  fold key. fold round.
  by rewrite type_errors_run_handlers, invoked_run_handlers.
Qed.

Lemma emit_logs_non_callable_handlers_witness :
  exists s',
    emit quiet "Done" []
      (mkState (set_listeners
                  {[ "onDone" := [VNull; VObj [("call", VFun 7)]; VObj []; VFun 1] ]} blank) [])
    = (Ok tt, s')
    /\ type_errors (trace s') = 2%nat
    /\ invoked (trace s') = [1%nat]
    /\ trace s'
       = [EvConsoleError TypeError;
          EvInvokeAsMethod 7 (VObj [("call", VFun 7)]) [];
          EvConsoleError TypeError;
          EvInvoke 1 []].
Proof.
  destruct (emit_logs_non_callable_handlers quiet "Done" []
              (mkState (set_listeners
                          {[ "onDone" := [VNull; VObj [("call", VFun 7)]; VObj []; VFun 1] ]}
                          blank) []))
    as (s' & Hrun & Herr & Hinv).
  exists s'. split; [exact Hrun|]. split; [exact Herr|]. split; [exact Hinv|].
  apply (f_equal snd) in Hrun. simpl in Hrun. rewrite <- Hrun. reflexivity.
Defined.

(** X6: a handler given as an array is spread by one level when it is
    registered: after [on('on' + E, [h1, ..., hn])] an emit of [E] runs,
    one after the other, the persistent handlers registered before,
    then [h1, ..., hn], then the one-shot handlers its second loop
    reaches; each entry is run as any handler is (a function is called,
    an object with a function as [call] property is called through it,
    any other entry leaves a [TypeError] on the console). *)
Theorem on_spreads_handler_array
    (behaviour : nat -> list event -> list value -> outcome)
    (event : string) (handlers : list value) (args : list value) (s : state) :
  let k := String.append "on" event in
  let earlier := default [] (listeners (this s) !! k) in
  exists s',
    (on k (VArr handlers) ;; emit behaviour event args)%js s = (Ok tt, s')
    /\ listeners (this s') !! k = Some (earlier ++ handlers)
    /\ trace s'
       = run_handlers behaviour args
           ((earlier ++ handlers) ++ once_called (this s) k) (trace s)
    /\ invoked (trace s')
       = invoked (trace s) ++ functions earlier ++ functions handlers
         ++ functions (once_called (this s) k).
Proof.
  intros k earlier.
  unfold bind at 1. unfold on at 1, assign, modify.
  rewrite emit_spec. fold k. eexists. split; [reflexivity|].
  cbn [this trace concat_arg].
  assert (Hround :
    default []
      (listeners
         (set_listeners
            (<[k := default [] (listeners (this s) !! k) ++ handlers]> (listeners (this s)))
            (this s)) !! k)
    ++ once_called
         (set_listeners
            (<[k := default [] (listeners (this s) !! k) ++ handlers]> (listeners (this s)))
            (this s)) k
    = (earlier ++ handlers) ++ once_called (this s) k).
  { unfold earlier. destruct s as [[] ?]. simpl.
    unfold once_called. simpl. by rewrite lookup_insert_eq. }
  rewrite Hround. split.
  { destruct s as [[] ?]. simpl. apply lookup_insert_eq. }
  split; [done|].
  by rewrite invoked_run_handlers, !functions_app, <- !app_assoc.
Qed.

Lemma on_spreads_handler_array_witness :
  exists s',
    (on "onDone" (VArr [VFun 2; VNull; VFun 3]) ;; emit quiet "Done" [])%js
      (mkState (set_onceListeners {[ "onDone" := [] ]}
                  (set_listeners {[ "onDone" := [VFun 1] ]} blank)) [])
    = (Ok tt, s')
    /\ invoked (trace s') = [1; 2; 3]%nat.
Proof.
  destruct (on_spreads_handler_array quiet "Done" [VFun 2; VNull; VFun 3] []
              (mkState (set_onceListeners {[ "onDone" := [] ]}
                          (set_listeners {[ "onDone" := [VFun 1] ]} blank)) []))
    as (s' & Hrun & _ & _ & Hinv).
  exists s'. split; [exact Hrun|exact Hinv].
Defined.

(** ** [fetch] *)

Lemma call_condition_quiet behaviour s :
  calls (trace (snd (call_condition behaviour s))) = calls (trace s).
Proof.
  destruct s as [r t]. unfold call_condition, bind, gets. simpl.
  destruct (condition r) as [|[]]; try reflexivity.
  unfold call_function, bind, gets, log, modify. simpl.
  destruct (behaviour f t []); simpl; by rewrite calls_app, app_nil_r.
Qed.

Lemma fetch_passing behaviour settled now s :
  condition_passes behaviour s ->
  fetch behaviour settled now s
  = fetch_resume behaviour settled now (suspended behaviour s).
Proof.
  intros Hc. unfold fetch, bind. by rewrite fetch_begin_started.
Qed.

Lemma fetch_resolved_closed behaviour fetched now s :
  condition_passes behaviour s ->
  let stored := fetched_data (this s) fetched in
  fetch behaviour (Resolved fetched) now s
  = (Ok tt,
     settled_at now
       (after_emit behaviour "Success" [stored]
          (mkState (set_data stored (set_loading true (this s)))
                   (trace (suspended behaviour s))))).
Proof.
  intros Hc stored. rewrite fetch_passing by done.
  rewrite fetch_resume_resolved. unfold stored, suspended. simpl.
  by destruct s as [[] ?].
Qed.

(** X7: on a resource that is not paged a successful fetch replaces
    [data] by the result, whatever the data was and whether or not the
    result is a sequence. *)
Theorem unpaged_fetch_replaces_data
    (behaviour : nat -> list event -> list value -> outcome)
    (s : state) (fetched : value) (now : Z) :
  truthy (paged (this s)) = false ->
  condition_passes behaviour s ->
  exists s', fetch behaviour (Resolved fetched) now s = (Ok tt, s')
             /\ data (this s') = fetched.
Proof.
  intros Hp Hc. rewrite fetch_resolved_closed by done.
  eexists. split; [reflexivity|].
  match goal with |- context [settled_at now ?x] =>
    destruct (settled_fields now x) as (_ & _ & -> & _) end.
  match goal with |- context [after_emit behaviour ?e ?a ?x] =>
    destruct (after_emit_fields behaviour e a x) as (-> & _) end.
  simpl. unfold fetched_data. rewrite Hp, andb_false_r.
  by destruct s as [[] ?].
Qed.

Lemma unpaged_fetch_replaces_data_witness :
  exists s', fetch quiet (Resolved (VArr [VNum 7])) 42 (mkState resource_a []) = (Ok tt, s')
             /\ data (this s') = VArr [VNum 7].
Proof.
  apply unpaged_fetch_replaces_data; [reflexivity|].
  exists (VBool true). split; reflexivity.
Defined.

(** X8: a successful fetch does not clear [error].  The message of an
    earlier failure is still there after a later fetch has succeeded. *)
Theorem successful_fetch_keeps_error
    (behaviour : nat -> list event -> list value -> outcome)
    (r : Resource) (t : list event) (messages : list string) (fetched : value)
    (now1 now2 : Z) :
  (condition_passes behaviour (mkState r t) ->
   exists s', fetch behaviour (Resolved fetched) now1 (mkState r t) = (Ok tt, s')
              /\ error (this s') = error r)
  /\ ((forall t', condition_passes behaviour (mkState r t')) ->
      exists s2,
        (fetch behaviour (Rejected (Some messages)) now1 ;;
         fetch behaviour (Resolved fetched) now2)%js (mkState r t) = (Ok tt, s2)
        /\ error (this s2) = VStr (join LF messages)
        /\ lastLoaded (this s2) = Some now2).
Proof.
  assert (Hok : forall r0 t0 now,
    condition_passes behaviour (mkState r0 t0) ->
    exists s', fetch behaviour (Resolved fetched) now (mkState r0 t0) = (Ok tt, s')
               /\ error (this s') = error r0
               /\ lastLoaded (this s') = Some now).
  { intros r0 t0 now Hc. rewrite fetch_resolved_closed by done.
    eexists. split; [reflexivity|].
    match goal with |- context [settled_at now ?x] =>
      destruct (settled_fields now x) as (-> & _ & _ & -> & _) end.
    match goal with |- context [after_emit behaviour ?e ?a ?x] =>
      destruct (after_emit_fields behaviour e a x) as (_ & -> & _) end.
    by destruct r0. }
  split.
  - intros Hc. destruct (Hok r t now1 Hc) as (s' & Hrun & Herr & _). by exists s'.
  - intros Hc.
    assert (Hfail : exists s1,
      fetch behaviour (Rejected (Some messages)) now1 (mkState r t) = (Ok tt, s1)
      /\ error (this s1) = VStr (join LF messages)
      /\ condition (this s1) = condition r).
    { rewrite fetch_passing by apply Hc. rewrite fetch_resume_rejected.
      eexists. split; [reflexivity|].
      match goal with |- context [settled_at now1 ?x] =>
        destruct (settled_fields now1 x) as (_ & _ & _ & -> & _ & -> & _) end.
      match goal with |- context [after_emit behaviour ?e ?a ?x] =>
        destruct (after_emit_fields behaviour e a x) as (_ & -> & _ & -> & _) end.
      by destruct r. }
    destruct Hfail as ([r1 t1] & Hrun1 & Herr1 & Hc1). simpl in *.
    assert (Hc' : condition_passes behaviour (mkState r1 t1)).
    { apply (condition_passes_ext behaviour (mkState r t1)); [by simpl|done|apply Hc]. }
    destruct (Hok r1 t1 now2 Hc') as (s2 & Hrun2 & Herr2 & Hlast2).
    exists s2. unfold bind at 1. rewrite Hrun1.
    split; [done|]. split; [congruence|done].
Qed.

Lemma successful_fetch_keeps_error_witness :
  exists s2,
    (fetch quiet (Rejected (Some ["boom"])) 41 ;;
     fetch quiet (Resolved (VNum 1)) 42)%js (mkState resource_a []) = (Ok tt, s2)
    /\ error (this s2) = VStr "boom".
Proof.
  destruct (successful_fetch_keeps_error quiet resource_a [] ["boom"] (VNum 1) 41 42)
    as [_ Htwo].
  destruct Htwo as (s2 & Hrun & Herr & _).
  - intros t'. exists (VBool true). split; reflexivity.
  - exists s2. split; [exact Hrun|exact Herr].
Defined.

(** X9: when the call rejects without a message list, the [catch] block
    of [fetch] itself fails: [fetch] ends with a [TypeError], no handler
    has been called, and the resource stays as the first half of [fetch]
    left it, with [loading] true and [data], [error] and [lastLoaded]
    not updated. *)
Theorem rejection_without_messages_escapes
    (behaviour : nat -> list event -> list value -> outcome)
    (s : state) (now : Z) :
  condition_passes behaviour s ->
  exists s',
    fetch behaviour (Rejected None) now s = (Raise TypeError, s')
    /\ this s' = set_loading true (this s)
    /\ loading (this s') = true
    /\ lastLoaded (this s') = lastLoaded (this s)
    /\ error (this s') = error (this s)
    /\ data (this s') = data (this s)
    /\ invoked (trace s') = invoked (trace (snd (call_condition behaviour s))).
Proof.
  intros Hc. rewrite fetch_passing by done. rewrite fetch_resume_no_messages.
  eexists. split; [reflexivity|]. unfold suspended. simpl.
  split; [done|]. split; [by destruct s as [[] ?]|].
  split; [by destruct s as [[] ?]|]. split; [by destruct s as [[] ?]|].
  split; [by destruct s as [[] ?]|].
  by rewrite invoked_app, app_nil_r.
Qed.

Lemma rejection_without_messages_escapes_witness :
  exists s',
    fetch quiet (Rejected None) 42 (mkState resource_a []) = (Raise TypeError, s')
    /\ loading (this s') = true
    /\ lastLoaded (this s') = Some 1700000000.
Proof.
  destruct (rejection_without_messages_escapes quiet (mkState resource_a []) 42)
    as (s' & Hrun & _ & Hload & Hlast & _).
  - exists (VBool true). split; reflexivity.
  - exists s'. split; [exact Hrun|]. split; [exact Hload|exact Hlast].
Defined.

(** X10: when [condition()] itself fails, [fetch] fails with the same
    exception before it has touched the resource or issued the call.  A
    truthy [condition] of the config that is not a function is such a
    case: every [fetch] ends with a [TypeError]. *)
Theorem failing_condition_fails_fetch
    (behaviour : nat -> list event -> list value -> outcome)
    (s : state) (settled : response) (now : Z) :
  (forall e, fst (call_condition behaviour s) = Raise e ->
     exists s', fetch behaviour settled now s = (Raise e, s')
                /\ this s' = this s
                /\ calls (trace s') = calls (trace s))
  /\ (forall v, condition (this s) = CondValue v ->
                (forall f, v <> VFun f) ->
                fetch behaviour settled now s = (Raise TypeError, s)).
Proof.
  split.
  - intros e He. exists (snd (call_condition behaviour s)).
    pose proof (call_condition_this behaviour s) as Hthis.
    pose proof (call_condition_quiet behaviour s) as Hcalls.
    unfold fetch, fetch_begin, bind.
    destruct (call_condition behaviour s) as [res s1]. simpl in *. by subst res.
  - intros v Hv Hnf. destruct s as [r t]. simpl in *.
    unfold fetch, fetch_begin, call_condition, bind, gets. simpl. rewrite Hv.
    destruct v; try reflexivity. by destruct (Hnf f).
Qed.

Lemma failing_condition_fails_fetch_witness :
  (exists s', fetch throwing (Resolved (VNum 1)) 42
                (mkState (set_condition (CondValue (VFun 6)) resource_a) [])
              = (Raise (Thrown (VStr "no")), s')
              /\ this s' = set_condition (CondValue (VFun 6)) resource_a)
  /\ fetch quiet (Resolved (VNum 1)) 42
       (mkState (set_condition (CondValue (VBool true)) resource_a) [])
     = (Raise TypeError, mkState (set_condition (CondValue (VBool true)) resource_a) []).
Proof.
  split.
  - destruct (failing_condition_fails_fetch throwing
                (mkState (set_condition (CondValue (VFun 6)) resource_a) [])
                (Resolved (VNum 1)) 42) as [Hthrow _].
    destruct (Hthrow (Thrown (VStr "no")) eq_refl) as (s' & Hrun & Hthis & _).
    exists s'. split; [exact Hrun|exact Hthis].
  - destruct (failing_condition_fails_fetch quiet
                (mkState (set_condition (CondValue (VBool true)) resource_a) [])
                (Resolved (VNum 1)) 42) as [_ Hnf].
    apply (Hnf (VBool true)); [reflexivity|]. intros f H. discriminate H.
Defined.

(** X11: a fetch whose condition passes calls the collaborator exactly
    once, with the method and the params the resource holds when [fetch]
    is entered, however the call settles; a fetch whose condition fails
    does not call it. *)
Theorem fetch_calls_once
    (behaviour : nat -> list event -> list value -> outcome)
    (s : state) (settled : response) (now : Z) :
  (condition_passes behaviour s ->
   calls (trace (snd (fetch behaviour settled now s)))
   = calls (trace s) ++ [(method (this s), params (this s))])
  /\ (condition_fails behaviour s ->
      calls (trace (snd (fetch behaviour settled now s))) = calls (trace s)).
Proof.
  split.
  - intros Hc. rewrite fetch_passing by done.
    assert (Hsusp : calls (trace (suspended behaviour s))
                    = calls (trace s) ++ [(method (this s), params (this s))]).
    { unfold suspended. simpl. by rewrite calls_app, call_condition_quiet. }
    destruct settled as [fetched|[messages|]].
    + rewrite fetch_resume_resolved. simpl.
      by rewrite after_emit_trace, calls_run_handlers.
    + rewrite fetch_resume_rejected. simpl.
      by rewrite after_emit_trace, calls_run_handlers.
    + by rewrite fetch_resume_no_messages.
  - intros Hc. unfold fetch, bind. rewrite fetch_begin_skipped by done.
    simpl. apply call_condition_quiet.
Qed.

Lemma fetch_calls_once_witness :
  calls (trace (snd (fetch grumpy (Rejected (Some ["x"])) 42 (mkState resource_b []))))
  = [(VStr "list_items", VNull)]
  /\ calls (trace (snd (fetch refusing (Resolved VNull) 42
                          (mkState (set_condition (CondValue (VFun 6)) resource_b) []))))
     = [].
Proof.
  split.
  - destruct (fetch_calls_once grumpy (mkState resource_b []) (Rejected (Some ["x"])) 42)
      as [Hpass _].
    apply Hpass. exists (VBool true). split; reflexivity.
  - destruct (fetch_calls_once refusing
                (mkState (set_condition (CondValue (VFun 6)) resource_b) [])
                (Resolved VNull) 42) as [_ Hfail].
    apply Hfail. exists (VBool false). split; reflexivity.
Defined.



(** ** The constructor of [Resource] and [update] *)

(** X13: the constructor fails exactly when the normalized config has no
    (truthy) method; it then throws the method-required error and has
    done nothing else.  When it succeeds the resource has the method of
    the config: the constructor never fails for a method change. *)
Theorem constructor_requires_method
    (options : definition) (initialValue : value) (s : state) :
  let given := get (normalize options) "method" in
  ((exists e, fst (constructor options initialValue s) = Raise e)
   <-> truthy given = false)
  /\ (forall e, fst (constructor options initialValue s) = Raise e ->
        e = JsError method_required /\ snd (constructor options initialValue s) = s)
  /\ (fst (constructor options initialValue s) = Ok tt ->
      method (this (snd (constructor options initialValue s))) = given
      /\ trace (snd (constructor options initialValue s)) = trace s).
Proof.
  intros given. destruct (truthy given) eqn:Hm.
  - rewrite constructor_ok by done. simpl. split; [|split]; try done.
    split; [by intros [e ?]|done].
  - rewrite constructor_throws by done. simpl. split; [|split]; try done.
    + split; [done|]. intros _. by eexists.
    + by intros e [= <-].
Qed.

Lemma constructor_requires_method_witness :
  fst (constructor (DefConfig [("params", VObj [])]) VUndefined (mkState blank []))
  = Raise (JsError method_required)
  /\ method (this (snd (constructor (DefString "ping") VUndefined (mkState blank []))))
     = VStr "ping".
Proof.
  split.
  - reflexivity.
  - destruct (constructor_requires_method (DefString "ping") VUndefined (mkState blank []))
      as (_ & _ & Hok).
    apply Hok. reflexivity.
Defined.

(** X14: a bare method string is sugar for an automatic resource without
    anything else: constructed from the non-empty string [m] the
    resource has method [m], [auto] true, no params, no handlers, the
    condition that always holds, and the initial value (or [null]) as
    data. *)
Theorem constructor_from_method_string
    (m : string) (initialValue : value) (t : list event) :
  m <> "" ->
  constructor (DefString m) initialValue (mkState blank t)
  = (Ok tt,
     mkState
       (mkResource (VStr m) VNull (VBool true) (VBool false) CondAlways (VBool false)
                   ∅ ∅ (js_or initialValue VNull) VNull false None)
       t).
Proof.
  intros Hm.
  assert (Ht : truthy (VStr m) = true).
  { simpl. destruct (String.eqb_spec m ""); [done|reflexivity]. }
  rewrite constructor_ok by (simpl; exact Ht).
  unfold updated, listener_table. simpl. do 2 f_equal. f_equal.
  unfold js_or. destruct (truthy initialValue) eqn:Hi; [by rewrite Hi|done].
Qed.

Lemma constructor_from_method_string_witness :
  constructor (DefString "ping") (VNum 0) (mkState blank [])
  = (Ok tt,
     mkState
       (mkResource (VStr "ping") VNull (VBool true) (VBool false) CondAlways (VBool false)
                   ∅ ∅ VNull VNull false None)
       []).
Proof.
  apply (constructor_from_method_string "ping" (VNum 0) []). intros H. discriminate H.
Defined.

(** X15: [update] has no effect outside the resource, whether it throws
    or not: no handler is called and no call is issued.  When it
    succeeds it forgets the previous answer: [error] is null, [loading]
    false and [lastLoaded] null, whatever they were. *)
Theorem update_resets_response_state
    (options : definition) (initialValue : value) (s : state) :
  trace (snd (update options initialValue s)) = trace s
  /\ (fst (update options initialValue s) = Ok tt ->
      error (this (snd (update options initialValue s))) = VNull
      /\ loading (this (snd (update options initialValue s))) = false
      /\ lastLoaded (this (snd (update options initialValue s))) = None).
Proof.
  destruct (method_conflict (this s) (normalize options)) eqn:Hc.
  - rewrite update_throws by done. simpl. split; [done|discriminate].
  - rewrite update_ok by done. simpl. done.
Qed.

Lemma update_resets_response_state_witness :
  let s := mkState (set_loading true (set_error (VStr "old") resource_a)) [] in
  error (this (snd (update (DefString "a") VUndefined s))) = VNull
  /\ loading (this (snd (update (DefString "a") VUndefined s))) = false
  /\ lastLoaded (this (snd (update (DefString "a") VUndefined s))) = None.
Proof.
  intros s.
  destruct (update_resets_response_state (DefString "a") VUndefined s) as [_ Hreset].
  apply Hreset. reflexivity.
Defined.

(** X16: an [update] does not detach a fetch that is in flight.  When the
    call issued before the update resolves afterwards, its result is
    stored under the new configuration (replacing the data the update
    had reset, or appended to it when the new config is paged), the
    [Success] handlers called are those of the new config, and the
    call that was made carries the old params. *)
Theorem update_during_fetch
    (behaviour : nat -> list event -> list value -> outcome)
    (options : definition) (initialValue fetched : value) (s : state) (now : Z) :
  condition_passes behaviour s ->
  method_conflict (this s) (normalize options) = false ->
  let o := normalize options in
  exists s',
    (fetch_begin behaviour ;;
     update options initialValue ;;
     fetch_resume behaviour (Resolved fetched) now)%js s = (Ok tt, s')
    /\ data (this s') = fetched_data (updated o initialValue (this s)) fetched
    /\ (truthy (get o "paged") = false -> data (this s') = fetched)
    /\ invoked (trace s')
       = invoked (trace (snd (call_condition behaviour s)))
         ++ functions (default [] (listener_table o !! "onSuccess"))
    /\ calls (trace s') = calls (trace s) ++ [(method (this s), params (this s))]
    /\ params (this s') = js_or (get o "params") VNull
    /\ lastLoaded (this s') = Some now
    /\ loading (this s') = false.
Proof.
  intros Hc Hconf o.
  unfold bind at 1. rewrite fetch_begin_started by done.
  unfold bind at 1.
  rewrite update_ok by (unfold suspended; simpl; by destruct s as [[] ?]).
  rewrite fetch_resume_resolved. fold o.
  assert (Hupd : updated o initialValue (this (suspended behaviour s))
                 = updated o initialValue (this s)).
  { unfold suspended. simpl. by destruct s as [[] ?]. }
  cbn [this trace]. rewrite Hupd.
  set (r1 := updated o initialValue (this s)).
  set (mid := mkState (set_data (fetched_data r1 fetched) r1)
                      (trace (suspended behaviour s))).
  set (emitted := after_emit behaviour "Success" [fetched_data r1 fetched] mid).
  exists (settled_at now emitted). split; [reflexivity|].
  destruct (settled_fields now emitted) as (Hl & Hld & Hd & _ & _ & _ & Ht).
  destruct (after_emit_fields behaviour "Success" [fetched_data r1 fetched] mid)
    as (He & _).
  pose proof (after_emit_trace behaviour "Success" [fetched_data r1 fetched] mid) as Het.
  pose proof (after_emit_this behaviour "Success" [fetched_data r1 fetched] mid) as Heth.
  fold emitted in He, Het, Heth.
  assert (Hdata : data (this (settled_at now emitted)) = fetched_data r1 fetched).
  { rewrite Hd, He. unfold mid. simpl. by destruct r1. }
  split; [exact Hdata|]. split.
  { intros Hp. rewrite Hdata. unfold fetched_data, r1. simpl. unfold js_or at 1.
    rewrite Hp. simpl. by rewrite andb_false_r. }
  split.
  { rewrite Ht, Het, invoked_run_handlers. unfold mid, suspended. simpl.
    rewrite invoked_app. simpl. rewrite app_nil_r. f_equal.
    unfold once_called, r1. simpl. rewrite lookup_empty. by rewrite app_nil_r. }
  split.
  { rewrite Ht, Het, calls_run_handlers. unfold mid, suspended. simpl.
    by rewrite calls_app, call_condition_quiet. }
  split.
  { unfold settled_at. simpl. rewrite Heth. unfold mid, r1. simpl. done. }
  done.
Qed.

Lemma update_during_fetch_witness :
  exists s',
    (fetch_begin quiet ;;
     update (DefConfig [("method", VStr "a"); ("params", VObj [("page", VNum 2)]);
                        ("onSuccess", VFun 5)]) VUndefined ;;
     fetch_resume quiet (Resolved (VStr "late")) 42)%js (mkState resource_a [])
    = (Ok tt, s')
    /\ data (this s') = VStr "late"
    /\ invoked (trace s') = [5%nat]
    /\ calls (trace s') = [(VStr "a", VObj [("page", VNum 1)])].
Proof.
  destruct (update_during_fetch quiet
              (DefConfig [("method", VStr "a"); ("params", VObj [("page", VNum 2)]);
                          ("onSuccess", VFun 5)]) VUndefined (VStr "late")
              (mkState resource_a []) 42)
    as (s' & Hrun & _ & Hdata & Hinv & Hcalls & _).
  - exists (VBool true). split; reflexivity.
  - reflexivity.
  - exists s'. split; [exact Hrun|]. split; [apply Hdata; reflexivity|].
    split; [exact Hinv|exact Hcalls].
Defined.

(** ** [updateResource] again *)

Lemma reloaded_response behaviour r w :
  error (this (reloaded behaviour r w)) = error r
  /\ lastLoaded (this (reloaded behaviour r w)) = lastLoaded r
  /\ set_loading false (this (reloaded behaviour r w)) = set_loading false r.
Proof.
  unfold reloaded. destruct (truthy (auto r)); [|done].
  destruct (fetch_begin_this behaviour (mkState r w)) as [-> | ->]; by destruct r.
Qed.

Lemma reloaded_calls behaviour r w :
  condition r = CondAlways ->
  calls (trace (reloaded behaviour r w))
  = calls w ++ (if truthy (auto r) then [(method r, params r)] else []).
Proof.
  intros Hc. unfold reloaded. destruct (truthy (auto r)); [|by rewrite app_nil_r].
  rewrite fetch_begin_started.
  - unfold suspended. simpl. by rewrite calls_app, call_condition_quiet.
  - exists (VBool true). unfold call_condition, bind, gets. simpl. by rewrite Hc.
Qed.

(** X17: [updateResource] fails exactly when the key holds a resource and
    the new value gives another method, or the key is free and either
    names an inherited property of a plain object or the new value
    gives no method.  What it throws is a configuration error, or a
    [TypeError] in the case of the inherited name; after the failure
    the manager holds the resources it held before, unchanged, and no
    user function and no call collaborator has been called. *)
Theorem updateResource_failure
    (behaviour : nat -> list event -> list value -> outcome)
    (key : string) (newValue : definition) (oldValue : option definition)
    (g : manager) :
  let o := normalize newValue in
  let run := updateResource behaviour key newValue oldValue g in
  ((exists e, fst run = Raise e)
   <-> match resources g !! key with
       | Some r => method_conflict r o = true
       | None => inherited key = true \/ truthy (get o "method") = false
       end)
  /\ (forall e, fst run = Raise e ->
        (if bool_decide (resources g !! key = None) && inherited key
         then e = TypeError else ConfigurationError e)
        /\ resources (snd run) = resources g
        /\ calls (world (snd run)) = calls (world g)
        /\ invoked (world (snd run)) = invoked (world g)).
Proof.
  intros o run. unfold run.
  destruct (resources g !! key) as [r|] eqn:Hr.
  - rewrite (updateResource_reuse behaviour key newValue oldValue g r Hr). fold o.
    rewrite bool_decide_eq_false_2 by done. cbn [andb].
    destruct (method_conflict r o); simpl.
    + split; [split; [done|by eexists]|].
      intros e [= <-]. split; [by right|]. split; [by apply insert_id|].
      rewrite calls_app, invoked_app.
      destruct (from_option truthy_def false oldValue); simpl; by rewrite !app_nil_r.
    + split; [split; [by intros [e ?]|done]|done].
  - rewrite bool_decide_eq_true_2 by done. cbn [andb].
    destruct (inherited key) eqn:Hin.
    + rewrite updateResource_inherited by done. simpl.
      split; [split; [by left|by eexists]|].
      by intros e [= <-].
    + rewrite updateResource_fresh by done. fold o.
      destruct (truthy (get o "method")); simpl.
      * split; [split; [by intros [e ?]|by intros [?|?]]|done].
      * split; [split; [by right|by eexists]|].
        intros e [= <-]. split; [by left|done].
Qed.

Lemma updateResource_failure_witness :
  let g := mkManager {[ "search" := resource_x ]} [] in
  fst (updateResource quiet "search" (DefString "other") None g)
  = Raise (JsError method_cannot_change)
  /\ resources (snd (updateResource quiet "search" (DefString "other") None g))
     = resources g.
Proof.
  intros g.
  destruct (updateResource_failure quiet "search" (DefString "other") None g)
    as [_ Hfail].
  split; [reflexivity|].
  destruct (Hfail (JsError method_cannot_change) eq_refl) as (_ & Hres & _).
  exact Hres.
Defined.

(** X18: [updateResource] never removes or replaces a resource of another
    key, and never frees a key: resources under other keys are the same
    afterwards, a key that held a resource still holds one, and after a
    success the key given holds one. *)
Theorem updateResource_never_evicts
    (behaviour : nat -> list event -> list value -> outcome)
    (key : string) (newValue : definition) (oldValue : option definition)
    (g : manager) :
  let run := updateResource behaviour key newValue oldValue g in
  (forall other, other <> key ->
     resources (snd run) !! other = resources g !! other)
  /\ (is_Some (resources g !! key) -> is_Some (resources (snd run) !! key))
  /\ (fst run = Ok tt -> is_Some (resources (snd run) !! key)).
Proof.
  intros run. unfold run.
  destruct (resources g !! key) as [r|] eqn:Hr.
  - rewrite (updateResource_reuse behaviour key newValue oldValue g r Hr).
    destruct (method_conflict r (normalize newValue)); simpl.
    + split; [intros other Hne; by rewrite lookup_insert_ne|].
      split; intros _; rewrite lookup_insert_eq; by eexists.
    + split; [intros other Hne; by rewrite lookup_insert_ne|].
      split; intros _; rewrite lookup_insert_eq; by eexists.
  - destruct (inherited key) eqn:Hin.
    + rewrite updateResource_inherited by done. simpl.
      split; [done|]. split; [by intros [? ?]|discriminate].
    + rewrite updateResource_fresh by done.
      destruct (truthy (get (normalize newValue) "method")); simpl.
      * split; [intros other Hne; by rewrite lookup_insert_ne|].
        split; intros _; rewrite lookup_insert_eq; by eexists.
      * split; [done|]. split; [by intros [? ?]|discriminate].
Qed.

Lemma updateResource_never_evicts_witness :
  let g := mkManager {[ "search" := resource_x ]} [] in
  is_Some (resources (snd (updateResource quiet "list" (DefString "list_items") None g))
           !! "list")
  /\ resources (snd (updateResource quiet "list" (DefString "list_items") None g))
     !! "search" = Some resource_x.
Proof.
  intros g.
  destruct (updateResource_never_evicts quiet "list" (DefString "list_items") None g)
    as (Hother & _ & Hok).
  split.
  - apply Hok. reflexivity.
  - rewrite (Hother "search"); [reflexivity|]. intros H. discriminate H.
Defined.

(** X19: the [keepData] flag keeps the data and nothing else.  After any
    successful [updateResource] the resource has [error] null and
    [lastLoaded] null, whatever the flag says and whatever they were. *)
Theorem updateResource_forgets_error_and_timestamp
    (behaviour : nat -> list event -> list value -> outcome)
    (key : string) (newValue : definition) (oldValue : option definition)
    (g g' : manager) :
  updateResource behaviour key newValue oldValue g = (Ok tt, g') ->
  exists r', resources g' !! key = Some r'
             /\ error r' = VNull
             /\ lastLoaded r' = None.
Proof.
  intros Hrun.
  assert (Hshape : exists r w,
    g' = mkManager
           (<[key := this (reloaded behaviour (reconfigured (normalize newValue) (data r) r) w)]>
              (resources g))
           (trace (reloaded behaviour (reconfigured (normalize newValue) (data r) r) w))).
  { destruct (resources g !! key) as [r|] eqn:Hr.
    - rewrite (updateResource_reuse behaviour key newValue oldValue g r Hr) in Hrun.
      destruct (method_conflict r (normalize newValue)); [discriminate|].
      injection Hrun as <-. by eexists _, _.
    - destruct (inherited key) eqn:Hin.
      { rewrite updateResource_inherited in Hrun by done. discriminate. }
      rewrite updateResource_fresh in Hrun by done. cbv zeta in Hrun.
      destruct (truthy (get (normalize newValue) "method")); [|discriminate].
      injection Hrun as <-.
      by exists (constructed (normalize newValue)),
                (world g ++ (if from_option truthy_def false oldValue
                             then [EvCancel] else [])). }
  destruct Hshape as (r & w & ->). simpl.
  eexists. split; [apply lookup_insert_eq|].
  destruct (reloaded_response behaviour (reconfigured (normalize newValue) (data r) r) w)
    as (-> & -> & _).
  unfold reconfigured. simpl.
  by destruct (truthy (js_or (get (normalize newValue) "keepData") (VBool false))).
Qed.

Lemma updateResource_forgets_error_and_timestamp_witness :
  let g := mkManager {[ "search" := set_error (VStr "old failure") resource_x ]} [] in
  let newValue := DefConfig [("method", VStr "search"); ("keepData", VBool true)] in
  exists r',
    resources (snd (updateResource quiet "search" newValue None g)) !! "search" = Some r'
    /\ error r' = VNull /\ lastLoaded r' = None.
Proof.
  intros g newValue.
  assert (Hfst : fst (updateResource quiet "search" newValue None g) = Ok tt)
    by reflexivity.
  destruct (updateResource quiet "search" newValue None g) as [res g'] eqn:Hrun.
  simpl in Hfst. subst res. simpl.
  exact (updateResource_forgets_error_and_timestamp quiet "search" newValue None g g' Hrun).
Defined.

(** ** The constructor of [ResourceManager] *)

Section ManagerConstructorFacts.

Variable behaviour : nat -> list event -> list value -> outcome.

Lemma define_static_ok key d rest watchers g :
  truthy (get (normalize d) "method") = true ->
  define_resources behaviour ((key, StaticDef d) :: rest) watchers g
  = define_resources behaviour rest watchers
      (mkManager
         (<[key := this (reloaded behaviour (constructed (normalize d)) (world g))]>
            (resources g))
         (trace (reloaded behaviour (constructed (normalize d)) (world g)))).
Proof.
  intros Hm. cbn [define_resources].
  unfold bind at 1. unfold bind at 1. rewrite new_Resource_ok by done.
  unfold bind at 1. unfold modify at 1.
  set (r := constructed (normalize d)).
  set (g1 := mkManager (<[key := r]> (resources g)) (world g)).
  assert (Hg1 : resources g1 !! key = Some r) by apply lookup_insert_eq.
  unfold reloaded. destruct (truthy (auto r)).
  - unfold unawaited. rewrite (on_resource_run key _ g1 r Hg1). simpl.
    by rewrite insert_insert_eq.
  - reflexivity.
Qed.

Lemma define_static_throws key d rest watchers g :
  truthy (get (normalize d) "method") = false ->
  define_resources behaviour ((key, StaticDef d) :: rest) watchers g
  = (Raise (JsError method_required), g).
Proof.
  intros Hm. cbn [define_resources].
  unfold bind at 1. unfold bind at 1. by rewrite new_Resource_throws.
Qed.

Lemma define_resources_fails resourceDefs : forall watchers g,
  existsb lacks_method resourceDefs = true ->
  exists g', define_resources behaviour resourceDefs watchers g
             = (Raise (JsError method_required), g').
Proof.
  induction resourceDefs as [|[key [f|d]] rest IH]; intros watchers g Hl;
    [discriminate| |].
  - cbn [define_resources]. by apply IH.
  - simpl in Hl. unfold lacks_method at 1 in Hl. simpl in Hl.
    destruct (truthy (get (normalize d) "method")) eqn:Hm; simpl in Hl.
    + rewrite define_static_ok by done. by apply IH.
    + rewrite define_static_throws by done. by eexists.
Qed.

Lemma define_resources_ok resourceDefs : forall watchers g,
  existsb lacks_method resourceDefs = false ->
  exists g',
    define_resources behaviour resourceDefs watchers g
    = (Ok (watchers ++ omap watcher_of resourceDefs), g')
    /\ (forall key, (forall d, (key, StaticDef d) ∉ resourceDefs) ->
          resources g' !! key = resources g !! key)
    /\ (NoDup (map fst resourceDefs) ->
        forall key d, (key, StaticDef d) ∈ resourceDefs ->
          exists r, resources g' !! key = Some r
                    /\ set_loading false r = constructed (normalize d))
    /\ (forallb unconditional resourceDefs = true ->
        calls (world g') = calls (world g) ++ omap initial_call resourceDefs).
Proof.
  induction resourceDefs as [|[key [f|d]] rest IH]; intros watchers g Hl.
  - exists g. simpl. rewrite !app_nil_r. split; [done|]. split; [done|].
    split; [|done]. intros _ key d Hin. by apply elem_of_nil in Hin.
  - destruct (IH (watchers ++ [mkWatcher f key true true true]) g Hl)
      as (g' & Hrun & Hframe & Hstatic & Hcalls).
    exists g'. cbn [define_resources]. rewrite Hrun. simpl.
    split; [by rewrite <- app_assoc|]. split; [|split].
    + intros k Hk. apply Hframe. intros d Hin. apply (Hk d). by right.
    + intros Hnd k d Hin. apply NoDup_cons in Hnd as [_ Hnd].
      apply elem_of_cons in Hin as [Heq|Hin]; [discriminate|]. by apply Hstatic.
    + intros Hu. by apply Hcalls.
  - simpl in Hl. unfold lacks_method at 1 in Hl. simpl in Hl.
    destruct (truthy (get (normalize d) "method")) eqn:Hm; [|discriminate].
    simpl in Hl. rewrite define_static_ok by done.
    set (r := reloaded behaviour (constructed (normalize d)) (world g)).
    destruct (IH watchers (mkManager (<[key := this r]> (resources g)) (trace r)) Hl)
      as (g' & Hrun & Hframe & Hstatic & Hcalls).
    exists g'. rewrite Hrun. simpl. split; [done|]. split; [|split].
    + intros k Hk. rewrite Hframe.
      * simpl. rewrite lookup_insert_ne; [done|].
        intros <-. apply (Hk d). left.
      * intros d' Hin. apply (Hk d'). by right.
    + intros Hnd k d' Hin. apply NoDup_cons in Hnd as [Hkey Hnd].
      apply elem_of_cons in Hin as [Heq|Hin].
      * injection Heq as -> ->. exists (this r). split.
        -- rewrite Hframe; [simpl; apply lookup_insert_eq|].
           intros d' Hin. apply Hkey.
           apply list_elem_of_fmap. by exists (key, StaticDef d').
        -- unfold r.
           destruct (reloaded_response behaviour (constructed (normalize d)) (world g))
             as (_ & _ & ->).
           done.
      * by apply Hstatic.
    + intros Hu. apply andb_prop in Hu as [Hd Hu]. rewrite Hcalls by done. simpl.
      unfold r. rewrite reloaded_calls.
      * unfold initial_call at 2. simpl.
        destruct (truthy (js_or (get (normalize d) "auto") (VBool false)));
          by rewrite <- app_assoc.
      * unfold unconditional in Hd. simpl in *.
        apply negb_true_iff in Hd. by rewrite Hd.
Qed.

End ManagerConstructorFacts.

(** X20: when the constructor of the manager succeeds, every dynamic
    definition has become a watcher with the options immediate, deep and
    sync, in the order in which [for ... in] enumerates the definitions
    (the list [resourceDefs]); every static definition has
    its resource under its key, equal to the resource the [Resource]
    constructor builds from it but for the [loading] flag (which an
    automatic reload may have raised); and no other key holds a
    resource. *)
Theorem new_ResourceManager_shape
    (behaviour : nat -> list event -> list value -> outcome)
    (resourceDefs : list (string * resourceDef)) (g g' : manager)
    (watchers : list watcher) :
  NoDup (map fst resourceDefs) ->
  new_ResourceManager behaviour resourceDefs g = (Ok watchers, g') ->
  watchers = omap watcher_of resourceDefs
  /\ (forall key d, (key, StaticDef d) ∈ resourceDefs ->
        exists r, resources g' !! key = Some r
                  /\ set_loading false r = constructed (normalize d))
  /\ (forall key, (forall d, (key, StaticDef d) ∉ resourceDefs) ->
        resources g' !! key = None).
Proof.
  intros Hnd Hrun. unfold new_ResourceManager, bind, modify in Hrun.
  destruct (existsb lacks_method resourceDefs) eqn:Hl.
  - destruct (define_resources_fails behaviour resourceDefs []
                (mkManager ∅ (world g)) Hl) as [g1 Hfail].
    rewrite Hfail in Hrun. discriminate.
  - destruct (define_resources_ok behaviour resourceDefs []
                (mkManager ∅ (world g)) Hl) as (g1 & Hok & Hframe & Hstatic & _).
    rewrite Hok in Hrun. injection Hrun as <- <-.
    split; [done|]. split; [by apply Hstatic|].
    intros key Hk. by rewrite Hframe.
Qed.

Lemma new_ResourceManager_shape_witness :
  exists g',
    new_ResourceManager quiet sample_defs (mkManager ∅ [])
    = (Ok [mkWatcher 11 "search" true true true], g')
    /\ resources g' !! "search" = None
    /\ exists r, resources g' !! "site" = Some r
                 /\ params r = VObj [("name", VStr "a")].
Proof.
  assert (Hfst : fst (new_ResourceManager quiet sample_defs (mkManager ∅ []))
                 = Ok [mkWatcher 11 "search" true true true]) by reflexivity.
  destruct (new_ResourceManager quiet sample_defs (mkManager ∅ [])) as [res g'] eqn:Hrun.
  simpl in Hfst. subst res. exists g'. split; [reflexivity|].
  assert (Hnd : NoDup (map fst sample_defs)).
  { repeat (apply NoDup_cons_2;
            [intros H; repeat (apply elem_of_cons in H as [H|H]; [discriminate H|]);
             by apply elem_of_nil in H|]).
    apply NoDup_nil_2. }
  destruct (new_ResourceManager_shape quiet sample_defs (mkManager ∅ []) g' _ Hnd Hrun)
    as (_ & Hstatic & Hnone).
  split.
  - apply Hnone. intros d H.
    repeat (apply elem_of_cons in H as [H|H]; [discriminate H|]).
    by apply elem_of_nil in H.
  - destruct (Hstatic "site" (DefConfig [("method", VStr "get_site");
                                         ("params", VObj [("name", VStr "a")])]))
      as (r & Hr & Heq).
    + right. right. left.
    + exists r. split; [exact Hr|].
      apply (f_equal params) in Heq. destruct r. exact Heq.
Defined.

(** X21: the constructor of the manager fails exactly when one of the
    static definitions has no (truthy) method, and what it throws is the
    method-required error of the [Resource] constructor. *)
Theorem new_ResourceManager_failure
    (behaviour : nat -> list event -> list value -> outcome)
    (resourceDefs : list (string * resourceDef)) (g : manager) :
  ((exists e, fst (new_ResourceManager behaviour resourceDefs g) = Raise e)
   <-> existsb lacks_method resourceDefs = true)
  /\ (forall e, fst (new_ResourceManager behaviour resourceDefs g) = Raise e ->
        e = JsError method_required).
Proof.
  unfold new_ResourceManager, bind, modify.
  destruct (existsb lacks_method resourceDefs) eqn:Hl.
  - destruct (define_resources_fails behaviour resourceDefs []
                (mkManager ∅ (world g)) Hl) as [g1 Hfail].
    rewrite Hfail. simpl. split; [split; [done|by eexists]|].
    by intros e [= <-].
  - destruct (define_resources_ok behaviour resourceDefs []
                (mkManager ∅ (world g)) Hl) as (g1 & Hok & _).
    rewrite Hok. simpl. split; [split; [by intros [e ?]|done]|done].
Qed.

Lemma new_ResourceManager_failure_witness :
  fst (new_ResourceManager quiet
         (sample_defs ++ [("broken", StaticDef (DefConfig [("params", VObj [])]))])
         (mkManager ∅ []))
  = Raise (JsError method_required).
Proof.
  destruct (new_ResourceManager_failure quiet
              (sample_defs ++ [("broken", StaticDef (DefConfig [("params", VObj [])]))])
              (mkManager ∅ [])) as [[_ Hfails] Herr].
  destruct (Hfails eq_refl) as [e He].
  rewrite He. f_equal. by apply Herr.
Defined.

(** X22: when every static definition has a method and none has a
    condition of its own, the constructor issues one call for each
    automatic static definition (a bare string, or a config with a
    truthy [auto]), in the order in which [for ... in] enumerates the
    definitions (the list [resourceDefs]), with the method and params of
    that definition, and no other call. *)
Theorem new_ResourceManager_initial_calls
    (behaviour : nat -> list event -> list value -> outcome)
    (resourceDefs : list (string * resourceDef)) (g : manager) :
  existsb lacks_method resourceDefs = false ->
  forallb unconditional resourceDefs = true ->
  calls (world (snd (new_ResourceManager behaviour resourceDefs g)))
  = calls (world g) ++ omap initial_call resourceDefs.
Proof.
  intros Hl Hu. unfold new_ResourceManager, bind, modify.
  destruct (define_resources_ok behaviour resourceDefs []
              (mkManager ∅ (world g)) Hl) as (g1 & Hok & _ & _ & Hcalls).
  rewrite Hok. simpl. by apply Hcalls.
Qed.

Lemma new_ResourceManager_initial_calls_witness :
  calls (world (snd (new_ResourceManager quiet sample_defs (mkManager ∅ []))))
  = [(VStr "list_plans", VNull)].
Proof.
  apply (new_ResourceManager_initial_calls quiet sample_defs (mkManager ∅ []));
    reflexivity.
Defined.

(** ** The notification queue *)

Lemma get_set_prop o k v : get (set_prop o k v) k = v.
Proof.
  induction o as [|[k' v'] o IH]; simpl.
  - by rewrite String.eqb_refl.
  - destruct (String.eqb k' k) eqn:Hk; simpl.
    + by rewrite String.eqb_refl.
    + by rewrite Hk.
Qed.

Lemma get_set_prop_other o k v k' : k' <> k -> get (set_prop o k v) k' = get o k'.
Proof.
  intros Hne. induction o as [|[k0 v0] o IH]; simpl.
  - destruct (String.eqb_spec k k'); [congruence|done].
  - destruct (String.eqb_spec k0 k) as [->|Hk0]; simpl.
    + destruct (String.eqb_spec k k'); [congruence|done].
    + destruct (String.eqb_spec k0 k'); [done|apply IH].
Qed.

Lemma filter_all {A} (f : A -> bool) (l : list A) :
  (forall x, x ∈ l -> f x = true) -> List.filter f l = l.
Proof.
  induction l as [|x l IH]; intros Hall; simpl; [done|].
  rewrite Hall by left. f_equal. apply IH. intros y Hy. apply Hall. by right.
Qed.

(** X23: when the timer of a notification fires, the notification is
    removed, and with it every notification whose props carry the same
    id.  If the props were not in the queue before and no notification
    of the queue has the id drawn, [notify] followed by its timer leaves
    the queue as it was. *)
Theorem notify_then_timer
    (props : nat) (id : Z) (q : toasts) :
  notifications (timer_fires props (notify props id q))
  = List.filter
      (fun p => negb (Nat.eqb p props)
                && negb (strict_eq (get (props_of q p) "id") (VNum id)))
      (notifications q)
  /\ (props ∉ notifications q ->
      (forall p, p ∈ notifications q -> get (props_of q p) "id" <> VNum id) ->
      notifications (timer_fires props (notify props id q)) = notifications q).
Proof.
  assert (Heq : notifications (timer_fires props (notify props id q))
    = List.filter
        (fun p => negb (Nat.eqb p props)
                  && negb (strict_eq (get (props_of q p) "id") (VNum id)))
        (notifications q)).
  { unfold timer_fires, notify, hideNotification. simpl.
    rewrite Nat.eqb_refl, get_set_prop, List.filter_app. simpl.
    rewrite Nat.eqb_refl, get_set_prop, strict_eq_refl. simpl. rewrite app_nil_r.
    apply List.filter_ext. intros p.
    destruct (Nat.eqb p props); simpl; [|done].
    by rewrite get_set_prop, strict_eq_refl. }
  split; [exact Heq|].
  intros Hfresh Hids. rewrite Heq. apply filter_all. intros p Hp.
  apply andb_true_intro. split.
  - apply negb_true_iff, Nat.eqb_neq. by intros ->.
  - apply negb_true_iff. unfold strict_eq. apply bool_decide_eq_false_2. by apply Hids.
Qed.

Lemma notify_then_timer_witness :
  notifications (timer_fires 2 (notify 2 300 sample_toasts)) = [0%nat; 1%nat]
  /\ notifications (timer_fires 2 (notify 2 200 sample_toasts)) = [0%nat].
Proof.
  destruct (notify_then_timer 2 300 sample_toasts) as [_ Hfresh].
  destruct (notify_then_timer 2 200 sample_toasts) as [Heq _].
  split.
  - apply Hfresh.
    + intros H. repeat (apply elem_of_cons in H as [H|H]; [discriminate H|]).
      by apply elem_of_nil in H.
    + intros p H.
      apply elem_of_cons in H as [->|H]; [intros E; discriminate E|].
      apply elem_of_cons in H as [->|H]; [intros E; discriminate E|].
      by apply elem_of_nil in H.
  - rewrite Heq. reflexivity.
Defined.

(** X24: [notify] overwrites whatever id the props carried with the id
    it draws and leaves their other properties and all other props
    alone; it appends the props to the queue and sets one timer, whose
    delay is the [timeout] of the props when that is truthy and 5000
    otherwise (so also for a timeout of 0). *)
Theorem notify_sets_id_and_timer
    (props : nat) (id : Z) (q : toasts) :
  let q' := notify props id q in
  get (props_of q' props) "id" = VNum id
  /\ (forall k, k <> "id" -> get (props_of q' props) k = get (props_of q props) k)
  /\ (forall p, p <> props -> props_of q' p = props_of q p)
  /\ notifications q' = notifications q ++ [props]
  /\ timers q'
     = timers q
       ++ [(if truthy (get (props_of q props) "timeout")
            then get (props_of q props) "timeout" else VNum 5000, props)].
Proof.
  unfold notify. simpl. rewrite Nat.eqb_refl.
  split; [apply get_set_prop|]. split; [intros k Hk; by apply get_set_prop_other|].
  split.
  - intros p Hp. apply Nat.eqb_neq in Hp. by rewrite Hp.
  - split; [done|]. unfold js_or.
    by rewrite get_set_prop_other by (intros H; discriminate H).
Qed.

Lemma notify_sets_id_and_timer_witness :
  get (props_of (notify 2 300 sample_toasts) 2) "id" = VNum 300
  /\ get (props_of (notify 2 300 sample_toasts) 2) "title" = VStr "new"
  /\ timers (notify 2 300 sample_toasts) = [(VNum 5000, 2%nat)].
Proof.
  destruct (notify_sets_id_and_timer 2 300 sample_toasts) as (Hid & Hk & _ & _ & Ht).
  split; [exact Hid|]. split.
  - rewrite Hk; [reflexivity|]. intros H. discriminate H.
  - rewrite Ht. reflexivity.
Defined.

(** X25: [hideNotification] removes every entry of the queue whose props
    carry the id given and keeps every other entry, as often as it
    occurs and in the order of the queue; it changes neither the props
    nor the timers, and hiding the same id again changes nothing. *)
Theorem hideNotification_removes_all_with_id (id : value) (q : toasts) :
  (forall p, count_occ Nat.eq_dec (notifications (hideNotification id q)) p
             = if strict_eq (get (props_of q p) "id") id then 0%nat
               else count_occ Nat.eq_dec (notifications q) p)
  /\ (forall p, p ∈ notifications (hideNotification id q)
                <-> p ∈ notifications q /\ get (props_of q p) "id" <> id)
  /\ sublist (notifications (hideNotification id q)) (notifications q)
  /\ props_of (hideNotification id q) = props_of q
  /\ timers (hideNotification id q) = timers q
  /\ hideNotification id (hideNotification id q) = hideNotification id q.
Proof.
  unfold hideNotification. simpl. split; [|split; [|split; [|split; [done|split; [done|]]]]].
  - intros p. induction (notifications q) as [|p0 l IH]; simpl.
    + by destruct (strict_eq (get (props_of q p) "id") id).
    + destruct (strict_eq (get (props_of q p0) "id") id) eqn:Hp0; simpl.
      * rewrite IH. destruct (Nat.eq_dec p0 p) as [->|Hne]; [by rewrite Hp0|done].
      * rewrite IH. destruct (Nat.eq_dec p0 p) as [->|Hne]; [by rewrite Hp0|done].
  - intros p. rewrite !list_elem_of_In, List.filter_In, negb_true_iff.
    unfold strict_eq. by rewrite bool_decide_eq_false.
  - induction (notifications q) as [|p l IH]; simpl; [constructor|].
    destruct (negb (strict_eq (get (props_of q p) "id") id));
      [by apply sublist_skip|by apply sublist_cons].
  - f_equal. induction (notifications q) as [|p l IH]; simpl; [done|].
    destruct (negb (strict_eq (get (props_of q p) "id") id)) eqn:Hp; simpl;
      [by rewrite Hp, IH|done].
Qed.

Lemma hideNotification_removes_all_with_id_witness :
  (0%nat ∈ notifications (hideNotification (VNum 200) sample_toasts))
  /\ hideNotification (VNum 200) (hideNotification (VNum 200) sample_toasts)
     = hideNotification (VNum 200) sample_toasts.
Proof.
  destruct (hideNotification_removes_all_with_id (VNum 200) sample_toasts)
    as (_ & Hin & _ & _ & _ & Hidem).
  split; [|exact Hidem].
  apply Hin. split; [left|]. intros H. discriminate H.
Defined.
